(** * The SofaRPC upstream connection pool (pkg/stream/sofarpc/connpool.go)

    A shallow embedding of [connPool] and [activeClient]: the pool, the
    [activeClient] objects it points to, the host and cluster counters and the
    request budget are one explicit state; every method is a computation in a
    small state-and-fault monad, and each call that leaves the pool (to a
    listener, the stream client, the connection, the budget) is appended to
    a log. *)

From Stdlib Require Import ZArith NArith Lia List.
From stdpp Require Import base decidable option list strings.
Import ListNotations.

Open Scope Z_scope.

(** ** Handles of the collaborators

    [types.Host], [str.Client], [types.Connection], the listeners and the
    stream encoders are interface values of other packages; the pool only
    passes them around, so each is an opaque handle. *)

Definition Host := nat.
Definition Client := nat.
Definition Connection := nat.
Definition StreamEncoder := nat.
Definition StreamReceiveListener := nat.
Definition PoolEventListener := nat.
Definition KeepAlive := nat.

(** A [*activeClient]: the address of an [ActiveClient] object; [option ptr]
    is a pointer that may be [nil]. *)
Definition ptr := nat.

(** ** Enumerations of package types *)

(** Modelled from the spec: the declaration of [types.ConnectionEvent] (a Go
    string type with named constants) is not under src/.  The constructors
    are the constants the pool and the spec name; every other value of the
    string type is an [OtherEvent]. *)
Inductive ConnectionEvent :=
| RemoteClose
| LocalClose
| Connected
| ConnectTimeout
| ConnectFailed
| OnReadTimeout
| OtherEvent (name : string).

#[global] Instance ConnectionEvent_eq_dec : EqDecision ConnectionEvent.
Proof. solve_decision. Defined.

(** Modelled from the spec: [types.StreamResetReason] is declared outside
    src/; the four reasons the pool tests are constructors, any other reason
    is an [OtherReset]. *)
Inductive StreamResetReason :=
| StreamConnectionTermination
| StreamConnectionFailed
| StreamLocalReset
| StreamRemoteReset
| OtherReset (name : string).

#[global] Instance StreamResetReason_eq_dec : EqDecision StreamResetReason.
Proof. solve_decision. Defined.

(** Modelled from the spec: [types.PoolFailureReason] is declared outside
    src/; the spec gives the two reasons [NewStream] reports. *)
Inductive PoolFailureReason :=
| ConnectionFailure
| Overflow.

#[global] Instance PoolFailureReason_eq_dec : EqDecision PoolFailureReason.
Proof. solve_decision. Defined.

(** ** context.Context

    A context is the chain of values attached by [context.WithValue];
    [context.Background()] carries none. *)

Inductive ContextKey :=
| ContextKeyConnectionID
| ContextSubProtocol
| OtherKey (name : string).

#[global] Instance ContextKey_eq_dec : EqDecision ContextKey.
Proof. solve_decision. Defined.

Inductive Value :=
| VByte (b : N)
| VUint64 (n : N)
| VOther (name : string).

#[global] Instance Value_eq_dec : EqDecision Value.
Proof. solve_decision. Defined.

Definition Context := list (ContextKey * Value).

Definition Background : Context := [].

Definition WithValue (parent : Context) (k : ContextKey) (v : Value) : Context :=
  (k, v) :: parent.

Fixpoint ctx_Value (ctx : Context) (k : ContextKey) : option Value :=
  match ctx with
  | [] => None
  | (k', v) :: parent => if decide (k' = k) then Some v else ctx_Value parent k
  end.

(** The type assertion [protocolValue.(byte)]. *)
Definition as_byte (v : option Value) : option N :=
  match v with
  | Some (VByte b) => Some b
  | _ => None
  end.

(** ** Counters of [types.HostStats] and [types.ClusterStats] *)

(** Modelled from the spec: the two structs are declared outside src/.  The
    spec gives a closed set of twelve counters, kept for the host and
    mirrored for the cluster; the names are the fields the pool uses. *)
Inductive Counter :=
| UpstreamConnectionTotal
| UpstreamConnectionActive
| UpstreamConnectionConFail
| UpstreamConnectionLocalCloseWithActiveRequest
| UpstreamConnectionRemoteCloseWithActiveRequest
| UpstreamRequestTotal
| UpstreamRequestActive
| UpstreamRequestTimeout
| UpstreamRequestFailureEject
| UpstreamRequestPendingOverflow
| UpstreamRequestLocalReset
| UpstreamRequestRemoteReset.

#[global] Instance Counter_eq_dec : EqDecision Counter.
Proof. solve_decision. Defined.

(** Modelled from the spec: one count per counter.  [metrics.Counter] is an
    interface of the go-metrics package, of which the pool uses [Inc] and
    [Dec]; a count is the sum of what was added less what was taken away. *)
Record Stats := mkStats {
  cConnectionTotal : Z;
  cConnectionActive : Z;
  cConnectionConFail : Z;
  cConnectionLocalCloseWithActiveRequest : Z;
  cConnectionRemoteCloseWithActiveRequest : Z;
  cRequestTotal : Z;
  cRequestActive : Z;
  cRequestTimeout : Z;
  cRequestFailureEject : Z;
  cRequestPendingOverflow : Z;
  cRequestLocalReset : Z;
  cRequestRemoteReset : Z
}.

(** [Count c s]: the value [s.c.Count()]. *)
Definition Count (c : Counter) (s : Stats) : Z :=
  match c with
  | UpstreamConnectionTotal => cConnectionTotal s
  | UpstreamConnectionActive => cConnectionActive s
  | UpstreamConnectionConFail => cConnectionConFail s
  | UpstreamConnectionLocalCloseWithActiveRequest => cConnectionLocalCloseWithActiveRequest s
  | UpstreamConnectionRemoteCloseWithActiveRequest => cConnectionRemoteCloseWithActiveRequest s
  | UpstreamRequestTotal => cRequestTotal s
  | UpstreamRequestActive => cRequestActive s
  | UpstreamRequestTimeout => cRequestTimeout s
  | UpstreamRequestFailureEject => cRequestFailureEject s
  | UpstreamRequestPendingOverflow => cRequestPendingOverflow s
  | UpstreamRequestLocalReset => cRequestLocalReset s
  | UpstreamRequestRemoteReset => cRequestRemoteReset s
  end.

(** The count of field [f] after [c] was moved by [d]. *)
Definition bump (c f : Counter) (d : Z) (s : Stats) : Z :=
  if decide (c = f) then Count f s + d else Count f s.

Definition add_count (c : Counter) (d : Z) (s : Stats) : Stats :=
  {| cConnectionTotal := bump c UpstreamConnectionTotal d s;
     cConnectionActive := bump c UpstreamConnectionActive d s;
     cConnectionConFail := bump c UpstreamConnectionConFail d s;
     cConnectionLocalCloseWithActiveRequest :=
       bump c UpstreamConnectionLocalCloseWithActiveRequest d s;
     cConnectionRemoteCloseWithActiveRequest :=
       bump c UpstreamConnectionRemoteCloseWithActiveRequest d s;
     cRequestTotal := bump c UpstreamRequestTotal d s;
     cRequestActive := bump c UpstreamRequestActive d s;
     cRequestTimeout := bump c UpstreamRequestTimeout d s;
     cRequestFailureEject := bump c UpstreamRequestFailureEject d s;
     cRequestPendingOverflow := bump c UpstreamRequestPendingOverflow d s;
     cRequestLocalReset := bump c UpstreamRequestLocalReset d s;
     cRequestRemoteReset := bump c UpstreamRequestRemoteReset d s |}.

(** [c.Inc(n)] and [c.Dec(n)] on the counter [c] of a stats struct. *)
Definition Inc (c : Counter) (n : Z) (s : Stats) : Stats := add_count c n s.
Definition Dec (c : Counter) (n : Z) (s : Stats) : Stats := add_count c (- n) s.

#[global] Arguments Inc : simpl never.
#[global] Arguments Dec : simpl never.

(** ** The request budget [ResourceManager().Requests()] *)

(** Modelled from the spec: the [types.Resource] behind
    [ClusterInfo().ResourceManager().Requests()] is implemented outside
    src/.  The spec describes it as a counter of requests in use with a
    capacity ceiling. *)
Record Resource := mkResource {
  res_inuse : Z;
  res_ceiling : Z
}.

(** Modelled from the spec: [CanCreate] admits a request while the budget
    is below its ceiling. *)
Definition CanCreate (r : Resource) : bool := res_inuse r <? res_ceiling r.

#[global] Arguments CanCreate : simpl never.

(** Modelled from the spec: [Increase] takes one unit of the budget. *)
Definition Increase (r : Resource) : Resource :=
  {| res_inuse := res_inuse r + 1; res_ceiling := res_ceiling r |}.

(** Modelled from the spec: [Decrease] releases one unit of the budget. *)
Definition Decrease (r : Resource) : Resource :=
  {| res_inuse := res_inuse r - 1; res_ceiling := res_ceiling r |}.

(** ** The structs of connpool.go *)

(** [keepAliveListener]. *)
Record keepAliveListener := mkKeepAliveListener {
  keepAlive_probe : KeepAlive
}.

(** Modelled from the spec: [types.CreateConnectionData], declared outside
    src/, is the bundle of a connection and the host information. *)
Record CreateConnectionData := mkConnData {
  cd_Connection : Connection;
  cd_HostInfo : Host
}.

(** [activeClient].  The model holds one pool, so the back-reference
    [pool] of every object is that pool; [totalStream] is a [uint64]. *)
Record ActiveClient := mkActiveClient {
  keepAlive : option keepAliveListener;
  client : option Client;
  ac_host : option CreateConnectionData;
  closeWithActiveReq : bool;
  totalStream : N
}.

(** [connPool]; [mux] is [true] while the mutex is held. *)
Record connPool := mkConnPool {
  activeClient : option ptr;
  host : Host;
  mux : bool
}.

(** [uint64] addition, as [atomic.AddUint64] performs it. *)
Definition AddUint64 (x delta : N) : N := ((x + delta) mod 2 ^ 64)%N.

(** ** Calls leaving the pool, and accesses to the guarded field *)

Inductive Call :=
| PoolEventListener_OnFailure (l : PoolEventListener) (r : PoolFailureReason) (h : option Host)
| PoolEventListener_OnReady (l : PoolEventListener) (s : StreamEncoder) (h : Host)
| Requests_CanCreate (answer : bool)
| Requests_Increase
| Requests_Decrease
| Client_NewStream (c : Client) (ctx : Context) (d : StreamReceiveListener) (s : StreamEncoder)
| Stream_AddEventListener (s : StreamEncoder) (ac : ptr)
| Client_Close (c : Client)
| Host_CreateConnection (h : Host) (ctx : Context) (conn : Connection)
| NewStreamClient (ctx : Context) (conn : Connection) (h : Host) (c : Client)
| Client_AddConnectionEventListener (c : Client) (ac : ptr)
| Client_SetStreamConnectionEventListener (c : Client) (ac : ptr)
| Connection_Connect (conn : Connection) (ioEnabled : bool) (err : option string)
| NewSofaRPCKeepAlive (c : Client) (proto : N) (interval_ns : Z) (retry : Z) (k : KeepAlive)
| Connection_AddConnectionEventListener (conn : Connection) (k : KeepAlive)
| Go_KeepAlive_Start (k : KeepAlive)
| Client_SetConnectionStats (c : Client)
| KeepAlive_SendKeepAlive (k : KeepAlive).

#[global] Instance Call_eq_dec : EqDecision Call.
Proof. solve_decision. Defined.

(** What a method does to [p.mux] and [p.activeClient], in program order. *)
Inductive Access :=
| Acquire
| Release
| ReadField
| WriteField (v : option ptr).

(** ** The state

    [pool] is the one pool of the model and [heap] the [activeClient]
    objects made for it, an address being an index into [heap].
    [HostStats], [ClusterStats] and [Requests] are what
    [p.host.HostStats()], [p.host.ClusterInfo().Stats()] and
    [p.host.ClusterInfo().ResourceManager().Requests()] lead to.
    [connect_err] is the error the transport will answer to
    [Connect], [pending_init] tells that the goroutine started by
    [NewConnPool] has not run yet, [next_handle] numbers the handles the
    collaborators hand out.  [trace] and [accesses] are the two logs. *)

Record World := mkWorld {
  pool : connPool;
  heap : list ActiveClient;
  HostStats : Stats;
  ClusterStats : Stats;
  Requests : Resource;
  connect_err : option string;
  pending_init : bool;
  next_handle : nat;
  trace : list Call;
  accesses : list Access
}.

Definition set_pool (p : connPool) (w : World) : World :=
  mkWorld p (heap w) (HostStats w) (ClusterStats w) (Requests w)
          (connect_err w) (pending_init w) (next_handle w) (trace w) (accesses w).

Definition set_heap (h : list ActiveClient) (w : World) : World :=
  mkWorld (pool w) h (HostStats w) (ClusterStats w) (Requests w)
          (connect_err w) (pending_init w) (next_handle w) (trace w) (accesses w).

Definition set_HostStats (s : Stats) (w : World) : World :=
  mkWorld (pool w) (heap w) s (ClusterStats w) (Requests w)
          (connect_err w) (pending_init w) (next_handle w) (trace w) (accesses w).

Definition set_ClusterStats (s : Stats) (w : World) : World :=
  mkWorld (pool w) (heap w) (HostStats w) s (Requests w)
          (connect_err w) (pending_init w) (next_handle w) (trace w) (accesses w).

Definition set_Requests (r : Resource) (w : World) : World :=
  mkWorld (pool w) (heap w) (HostStats w) (ClusterStats w) r
          (connect_err w) (pending_init w) (next_handle w) (trace w) (accesses w).

Definition set_pending_init (b : bool) (w : World) : World :=
  mkWorld (pool w) (heap w) (HostStats w) (ClusterStats w) (Requests w)
          (connect_err w) b (next_handle w) (trace w) (accesses w).

Definition set_next_handle (n : nat) (w : World) : World :=
  mkWorld (pool w) (heap w) (HostStats w) (ClusterStats w) (Requests w)
          (connect_err w) (pending_init w) n (trace w) (accesses w).

Definition set_trace (t : list Call) (w : World) : World :=
  mkWorld (pool w) (heap w) (HostStats w) (ClusterStats w) (Requests w)
          (connect_err w) (pending_init w) (next_handle w) t (accesses w).

Definition set_accesses (a : list Access) (w : World) : World :=
  mkWorld (pool w) (heap w) (HostStats w) (ClusterStats w) (Requests w)
          (connect_err w) (pending_init w) (next_handle w) (trace w) a.

Definition set_activeClient (v : option ptr) (p : connPool) : connPool :=
  mkConnPool v (host p) (mux p).

Definition set_mux (b : bool) (p : connPool) : connPool :=
  mkConnPool (activeClient p) (host p) b.

Definition set_keepAlive (k : option keepAliveListener) (o : ActiveClient) : ActiveClient :=
  mkActiveClient k (client o) (ac_host o) (closeWithActiveReq o) (totalStream o).

Definition set_client (c : option Client) (o : ActiveClient) : ActiveClient :=
  mkActiveClient (keepAlive o) c (ac_host o) (closeWithActiveReq o) (totalStream o).

Definition set_ac_host (d : option CreateConnectionData) (o : ActiveClient) : ActiveClient :=
  mkActiveClient (keepAlive o) (client o) d (closeWithActiveReq o) (totalStream o).

Definition set_closeWithActiveReq (b : bool) (o : ActiveClient) : ActiveClient :=
  mkActiveClient (keepAlive o) (client o) (ac_host o) b (totalStream o).

Definition set_totalStream (n : N) (o : ActiveClient) : ActiveClient :=
  mkActiveClient (keepAlive o) (client o) (ac_host o) (closeWithActiveReq o) n.

(** ** The monad: state, and a fault for what Go answers with a panic or
    with a goroutine that never gets past a held mutex. *)

Definition M (A : Type) : Type := World → option (A * World).

#[global] Instance M_ret : MRet M := λ A a w, Some (a, w).

#[global] Instance M_bind : MBind M := λ A B k m w,
  match m w with
  | Some (a, w') => k a w'
  | None => None
  end.

Definition fault {A : Type} : M A := λ _, None.
Definition get : M World := λ w, Some (w, w).
Definition modify (f : World → World) : M unit := λ w, Some ((), f w).

(** The state a computation ends in. *)
Definition exec {A : Type} (m : M A) (w : World) : option World :=
  match m w with
  | Some (_, w') => Some w'
  | None => None
  end.

Definition call (c : Call) : M unit :=
  modify (λ w, set_trace (trace w ++ [c]) w).

Definition access (a : Access) : M unit :=
  modify (λ w, set_accesses (accesses w ++ [a]) w).

(** [p.mux.Lock()]: a held mutex never becomes free inside one method. *)
Definition mux_Lock : M unit :=
  w ← get;
  if mux (pool w) then fault
  else modify (λ w, set_pool (set_mux true (pool w)) w);; access Acquire.

(** [p.mux.Unlock()]: unlocking a free mutex is a fatal error. *)
Definition mux_Unlock : M unit :=
  w ← get;
  if mux (pool w)
  then modify (λ w, set_pool (set_mux false (pool w)) w);; access Release
  else fault.

(** Reading and writing [p.activeClient]. *)
Definition read_activeClient : M (option ptr) :=
  access ReadField;;
  w ← get;
  mret (activeClient (pool w)).

Definition write_activeClient (v : option ptr) : M unit :=
  access (WriteField v);;
  modify (λ w, set_pool (set_activeClient v (pool w)) w).

Definition read_host : M Host :=
  w ← get; mret (host (pool w)).

(** Dereferencing a [*activeClient]; a nil or dangling pointer faults. *)
Definition deref (a : ptr) : M ActiveClient :=
  w ← get;
  match heap w !! a with
  | Some o => mret o
  | None => fault
  end.

Definition update (a : ptr) (f : ActiveClient → ActiveClient) : M unit :=
  o ← deref a;
  modify (λ w, set_heap (<[a := f o]> (heap w)) w).

(** [&activeClient{pool: pool}]: a fresh object at a fresh address. *)
Definition alloc : M ptr :=
  w ← get;
  modify (set_heap (heap w ++ [mkActiveClient None None None false 0%N]));;
  mret (length (heap w)).

(** A handle handed out by a collaborator. *)
Definition fresh : M nat :=
  w ← get;
  modify (set_next_handle (S (next_handle w)));;
  mret (next_handle w).

(** Unwrapping an interface field that must have been set. *)
Definition nonnil {A : Type} (o : option A) : M A :=
  match o with
  | Some a => mret a
  | None => fault
  end.

Definition HostStats_Inc (c : Counter) (n : Z) : M unit :=
  modify (λ w, set_HostStats (Inc c n (HostStats w)) w).

Definition HostStats_Dec (c : Counter) (n : Z) : M unit :=
  modify (λ w, set_HostStats (Dec c n (HostStats w)) w).

Definition ClusterStats_Inc (c : Counter) (n : Z) : M unit :=
  modify (λ w, set_ClusterStats (Inc c n (ClusterStats w)) w).

Definition ClusterStats_Dec (c : Counter) (n : Z) : M unit :=
  modify (λ w, set_ClusterStats (Dec c n (ClusterStats w)) w).

Definition requests_CanCreate : M bool :=
  w ← get;
  call (Requests_CanCreate (CanCreate (Requests w)));;
  mret (CanCreate (Requests w)).

Definition requests_Increase : M unit :=
  call Requests_Increase;;
  modify (λ w, set_Requests (Increase (Requests w)) w).

Definition requests_Decrease : M unit :=
  call Requests_Decrease;;
  modify (λ w, set_Requests (Decrease (Requests w)) w).

(** [atomic.AddUint64(&activeClient.totalStream, 1)]. *)
Definition atomic_AddUint64_totalStream (a : ptr) (delta : N) : M unit :=
  update a (λ o, set_totalStream (AddUint64 (totalStream o) delta) o).

(** [c.NewStream(ctx, responseDecoder)] on the stream client. *)
Definition client_NewStream (c : Client) (ctx : Context)
    (responseDecoder : StreamReceiveListener) : M StreamEncoder :=
  s ← fresh;
  call (Client_NewStream c ctx responseDecoder s);;
  mret s.

(** ** The methods of [connPool] *)

Definition Active : M bool :=
  mux_Lock;;
  a ← read_activeClient;
  r ← mret (match a with Some _ => true | None => false end);
  mux_Unlock;;
  mret r.

Definition NewStream (ctx : Context) (responseDecoder : StreamReceiveListener)
    (listener : PoolEventListener) : M unit :=
  mux_Lock;;
  activeClient ← read_activeClient;
  mux_Unlock;;
  match activeClient with
  | None => call (PoolEventListener_OnFailure listener ConnectionFailure None)
  | Some ac =>
    ok ← requests_CanCreate;
    if negb ok then
      call (PoolEventListener_OnFailure listener Overflow None);;
      HostStats_Inc UpstreamRequestPendingOverflow 1;;
      ClusterStats_Inc UpstreamRequestPendingOverflow 1
    else
      atomic_AddUint64_totalStream ac 1;;
      HostStats_Inc UpstreamRequestTotal 1;;
      HostStats_Inc UpstreamRequestActive 1;;
      ClusterStats_Inc UpstreamRequestTotal 1;;
      ClusterStats_Inc UpstreamRequestActive 1;;
      requests_Increase;;
      o ← deref ac;
      c ← nonnil (client o);
      streamEncoder ← client_NewStream c ctx responseDecoder;
      call (Stream_AddEventListener streamEncoder ac);;
      h ← read_host;
      call (PoolEventListener_OnReady listener streamEncoder h)
  end.

Definition Close : M unit :=
  a ← read_activeClient;
  match a with
  | None => mret ()
  | Some _ =>
    a' ← read_activeClient;
    ac ← nonnil a';
    o ← deref ac;
    c ← nonnil (client o);
    call (Client_Close c)
  end.

(** [protocol.SofaRPC]. *)
Definition Protocol : string := "SofaRPC".

Definition onStreamDestroy (cli : ptr) : M unit :=
  HostStats_Dec UpstreamRequestActive 1;;
  ClusterStats_Dec UpstreamRequestActive 1;;
  requests_Decrease.

Definition onStreamReset (cli : ptr) (reason : StreamResetReason) : M unit :=
  if decide (reason = StreamConnectionTermination ∨ reason = StreamConnectionFailed) then
    HostStats_Inc UpstreamRequestFailureEject 1;;
    ClusterStats_Inc UpstreamRequestFailureEject 1;;
    update cli (set_closeWithActiveReq true)
  else if decide (reason = StreamLocalReset) then
    HostStats_Inc UpstreamRequestLocalReset 1;;
    ClusterStats_Inc UpstreamRequestLocalReset 1
  else if decide (reason = StreamRemoteReset) then
    HostStats_Inc UpstreamRequestRemoteReset 1;;
    ClusterStats_Inc UpstreamRequestRemoteReset 1
  else mret ().

(** [str.NewStreamClient(context, protocol.SofaRPC, connData.Connection,
    connData.HostInfo)]. *)
Definition createStreamClient (context : Context) (connData : CreateConnectionData)
    : M Client :=
  c ← fresh;
  call (NewStreamClient context (cd_Connection connData) (cd_HostInfo connData) c);;
  mret c.

(** [keepAliveListener.OnEvent]. *)
Definition keepAliveListener_OnEvent (l : keepAliveListener) (event : ConnectionEvent)
    : M unit :=
  if decide (event = OnReadTimeout)
  then call (KeepAlive_SendKeepAlive (keepAlive_probe l))
  else mret ().

(** [pool.host.CreateConnection(ctx)]: the host answers with a new
    connection and its own information. *)
Definition host_CreateConnection (ctx : Context) : M CreateConnectionData :=
  h ← read_host;
  conn ← fresh;
  call (Host_CreateConnection h ctx conn);;
  mret (mkConnData conn h).

(** [Connection.Connect(ioEnabled)]: the transport decides the outcome,
    which the state holds as [connect_err]. *)
Definition connection_Connect (conn : Connection) (ioEnabled : bool)
    : M (option string) :=
  w ← get;
  call (Connection_Connect conn ioEnabled (connect_err w));;
  mret (connect_err w).

(** [time.Second], in nanoseconds. *)
Definition time_Second : Z := 1000000000.

(** [newActiveClient(ctx, pool)]; [data.Connection.ID()] is the number of
    the connection handle. *)
Definition newActiveClient (ctx : Context) : M (option ptr) :=
  ac ← alloc;
  data ← host_CreateConnection ctx;
  connCtx ← mret (WithValue Background ContextKeyConnectionID
                     (VUint64 (N.of_nat (cd_Connection data))));
  codecClient ← createStreamClient connCtx data;
  call (Client_AddConnectionEventListener codecClient ac);;
  call (Client_SetStreamConnectionEventListener codecClient ac);;
  update ac (set_client (Some codecClient));;
  update ac (set_ac_host (Some data));;
  o ← deref ac;
  d ← nonnil (ac_host o);
  err ← connection_Connect (cd_Connection d) true;
  match err with
  | Some _ => mret None
  | None =>
    match as_byte (ctx_Value ctx ContextSubProtocol) with
    | Some proto =>
      k ← fresh;
      call (NewSofaRPCKeepAlive codecClient proto time_Second 6 k);;
      update ac (set_keepAlive (Some (mkKeepAliveListener k)));;
      call (Connection_AddConnectionEventListener (cd_Connection d) k);;
      call (Go_KeepAlive_Start k)
    | None => mret ()
    end;;
    HostStats_Inc UpstreamConnectionTotal 1;;
    HostStats_Inc UpstreamConnectionActive 1;;
    ClusterStats_Inc UpstreamConnectionTotal 1;;
    ClusterStats_Inc UpstreamConnectionActive 1;;
    call (Client_SetConnectionStats codecClient);;
    mux_Lock;;
    write_activeClient (Some ac);;
    mux_Unlock;;
    mret (Some ac)
  end.

(** [connPool.init]: the result of the one construction attempt is stored
    into the field. *)
Definition init : M unit :=
  r ← newActiveClient Background;
  write_activeClient r.

(** [NewConnPool(host)], in an environment given by the counters of the
    host and its cluster, the request budget and the outcome the transport
    holds for the connect: a pool without client, and the goroutine
    [go p.init()] still to run. *)
Definition NewConnPool (h : Host) (hs cs : Stats) (rq : Resource)
    (cerr : option string) : World :=
  {| pool := {| activeClient := None; host := h; mux := false |};
     heap := [];
     HostStats := hs;
     ClusterStats := cs;
     Requests := rq;
     connect_err := cerr;
     pending_init := true;
     next_handle := 0%nat;
     trace := [];
     accesses := [] |}.

(** The events of the stream listener interfaces that do not depend on the
    classification of connection events. *)
Definition OnDestroyStream (ac : ptr) : M unit :=
  _ ← deref ac;
  onStreamDestroy ac.

Definition OnResetStream (ac : ptr) (reason : StreamResetReason) : M unit :=
  _ ← deref ac;
  onStreamReset ac reason.

Definition OnGoAway (ac : ptr) : M unit := mret ().

(** Modelled from the spec: [ConnectionEvent.IsClose] is declared outside
    src/; the spec names the local and the remote close as the close
    events.  The pool below takes the classification as a parameter, and
    this one instantiates it. *)
Definition IsClose_of_spec (e : ConnectionEvent) : bool :=
  bool_decide (e = LocalClose) || bool_decide (e = RemoteClose).

Section ConnectionEvents.

(** [event.IsClose()] of package types. *)
Variable IsClose : ConnectionEvent → bool.

Definition onConnectionEvent (cli : ptr) (event : ConnectionEvent) : M unit :=
  if IsClose event then
    o ← deref cli;
    (if closeWithActiveReq o then
       if decide (event = LocalClose) then
         HostStats_Inc UpstreamConnectionLocalCloseWithActiveRequest 1;;
         ClusterStats_Inc UpstreamConnectionLocalCloseWithActiveRequest 1
       else if decide (event = RemoteClose) then
         HostStats_Inc UpstreamConnectionRemoteCloseWithActiveRequest 1;;
         ClusterStats_Inc UpstreamConnectionRemoteCloseWithActiveRequest 1
       else mret ()
     else mret ());;
    write_activeClient None
  else if decide (event = ConnectTimeout) then
    HostStats_Inc UpstreamRequestTimeout 1;;
    ClusterStats_Inc UpstreamRequestTimeout 1;;
    o ← deref cli;
    c ← nonnil (client o);
    call (Client_Close c);;
    write_activeClient None
  else if decide (event = ConnectFailed) then
    HostStats_Inc UpstreamConnectionConFail 1;;
    ClusterStats_Inc UpstreamConnectionConFail 1;;
    write_activeClient None
  else mret ().

(** [activeClient.OnEvent]: through [ac.pool] to the pool's reducer. *)
Definition OnEvent (ac : ptr) (event : ConnectionEvent) : M unit :=
  _ ← deref ac;
  onConnectionEvent ac event.

(** The events that end the pool's connection. *)
Definition terminal (event : ConnectionEvent) : bool :=
  IsClose event || bool_decide (event = ConnectTimeout)
  || bool_decide (event = ConnectFailed).

(** *** The pool as a machine

    One step is one method run to its end: the goroutine of [init], a
    call of the public interface, or an event delivered to an
    [activeClient].  These are the runs in which no two goroutines
    overlap; what the pool does when they do is the subject of the
    section on interleaving below, whose schedules include these runs. *)
Inductive Label :=
| run_init
| call_Active
| call_NewStream (ctx : Context) (d : StreamReceiveListener) (l : PoolEventListener)
| call_Close
| ev_OnEvent (ac : ptr) (event : ConnectionEvent)
| ev_OnDestroyStream (ac : ptr)
| ev_OnResetStream (ac : ptr) (reason : StreamResetReason)
| ev_OnGoAway (ac : ptr).

#[global] Instance Label_eq_dec : EqDecision Label.
Proof. solve_decision. Defined.

(** The goroutine [go p.init()] runs once, here from its first line to its
    last with nothing in between. *)
Definition spawned_init : M unit :=
  w ← get;
  if pending_init w
  then modify (set_pending_init false);; init
  else fault.

Definition step (l : Label) : M unit :=
  match l with
  | run_init => spawned_init
  | call_Active => _ ← Active; mret ()
  | call_NewStream ctx d l => NewStream ctx d l
  | call_Close => Close
  | ev_OnEvent ac event => OnEvent ac event
  | ev_OnDestroyStream ac => OnDestroyStream ac
  | ev_OnResetStream ac reason => OnResetStream ac reason
  | ev_OnGoAway ac => OnGoAway ac
  end.

Fixpoint steps (ls : list Label) : M unit :=
  match ls with
  | [] => mret ()
  | l :: ls' => step l;; steps ls'
  end.

(** The states a pool can be in: those some run of the machine reaches
    from a fresh pool. *)
Definition reachable (w : World) : Prop :=
  ∃ h hs cs rq cerr ls,
    exec (steps ls) (NewConnPool h hs cs rq cerr) = Some w.

End ConnectionEvents.

(** *** Discipline of the mutex

    [guarded held log]: every read and write of the field in [log] happens
    between an [Acquire] and the next [Release]; [held] tells whether the
    mutex is held when the log starts. *)
Fixpoint guarded (held : bool) (log : list Access) : bool :=
  match log with
  | [] => true
  | Acquire :: log' => guarded true log'
  | Release :: log' => guarded false log'
  | ReadField :: log' => held && guarded held log'
  | WriteField _ :: log' => held && guarded held log'
  end.

(** A method keeps the discipline when, started with the mutex free, what
    it adds to the access log is guarded. *)
Definition lock_discipline {A : Type} (m : M A) : Prop :=
  ∀ w w', mux (pool w) = false → exec m w = Some w' →
    ∃ log, accesses w' = accesses w ++ log ∧ guarded false log = true.

(** A sequence of [NewStream] calls, one per triple of arguments, and a
    sequence of stream-destroy notifications, one per client pointer. *)
Definition NewStreamArgs : Type :=
  Context * StreamReceiveListener * PoolEventListener.

Fixpoint NewStreams (calls : list NewStreamArgs) : M unit :=
  match calls with
  | [] => mret ()
  | (ctx, d, l) :: calls' => NewStream ctx d l;; NewStreams calls'
  end.

Fixpoint DestroyStreams (clis : list ptr) : M unit :=
  match clis with
  | [] => mret ()
  | cli :: clis' => onStreamDestroy cli;; DestroyStreams clis'
  end.

(** Every call of the sequence is a successful one: it finds a client
    installed, the budget admits it, and it returns. *)
Fixpoint all_successful (calls : list NewStreamArgs) (w : World) : Prop :=
  match calls with
  | [] => True
  | (ctx, d, l) :: calls' =>
    is_Some (activeClient (pool w)) ∧ CanCreate (Requests w) = true ∧
    ∃ w', exec (NewStream ctx d l) w = Some w' ∧ all_successful calls' w'
  end.

(** *** The tables of the spec

    The spec gives the reducers as two tables, from the event or reason to
    the counter that moves (at the host and, mirrored, at the cluster).
    These definitions follow the tables; the properties compare the
    reducers with them. *)

(** Connection event and [closeWithActiveReq] to counter. *)
Definition event_counter (event : ConnectionEvent) (withActiveReq : bool)
    : option Counter :=
  match event with
  | LocalClose =>
    if withActiveReq then Some UpstreamConnectionLocalCloseWithActiveRequest else None
  | RemoteClose =>
    if withActiveReq then Some UpstreamConnectionRemoteCloseWithActiveRequest else None
  | ConnectTimeout => Some UpstreamRequestTimeout
  | ConnectFailed => Some UpstreamConnectionConFail
  | _ => None
  end.

(** Stream reset reason to counter. *)
Definition reset_counter (reason : StreamResetReason) : option Counter :=
  match reason with
  | StreamConnectionTermination => Some UpstreamRequestFailureEject
  | StreamConnectionFailed => Some UpstreamRequestFailureEject
  | StreamLocalReset => Some UpstreamRequestLocalReset
  | StreamRemoteReset => Some UpstreamRequestRemoteReset
  | OtherReset _ => None
  end.

(** One more on the counter the table names, if it names one. *)
Definition Inc_named (c : option Counter) (s : Stats) : Stats :=
  match c with
  | Some c => Inc c 1 s
  | None => s
  end.

(** The shape of the state between two steps: the mutex is free, every
    [activeClient] object has its stream client, the pool points to an
    object that exists, and no object exists before [init] has run. *)
Record wf (w : World) : Prop := mkWf {
  wf_mux : mux (pool w) = false;
  wf_client : Forall (λ o, is_Some (client o)) (heap w);
  wf_active : ∀ a, activeClient (pool w) = Some a → (a < length (heap w))%nat;
  wf_pending : pending_init w = true → length (heap w) = 0%nat
}.

(** The events of a connection set-up, up to and including the connect:
    what [newActiveClient] tells the host, the stream client and the
    connection before it looks at the outcome. *)
Definition dial_calls (ctx : Context) (w : World) : list Call :=
  [Host_CreateConnection (host (pool w)) ctx (next_handle w);
   NewStreamClient (WithValue Background ContextKeyConnectionID
                      (VUint64 (N.of_nat (next_handle w))))
                   (next_handle w) (host (pool w)) (S (next_handle w));
   Client_AddConnectionEventListener (S (next_handle w)) (length (heap w));
   Client_SetStreamConnectionEventListener (S (next_handle w)) (length (heap w));
   Connection_Connect (next_handle w) true (connect_err w)].

(** The object [newActiveClient] has built when it connects. *)
Definition dialed_client (w : World) : ActiveClient :=
  {| keepAlive := None;
     client := Some (S (next_handle w));
     ac_host := Some {| cd_Connection := next_handle w; cd_HostInfo := host (pool w) |};
     closeWithActiveReq := false;
     totalStream := 0 |}.

(** ** Example states

    A pool on host 7 whose cluster admits two requests at a time: freshly
    made, after a connect that succeeded, with the budget used up, and on a
    host that refuses the connection. *)

Definition no_counts : Stats := mkStats 0 0 0 0 0 0 0 0 0 0 0 0.

Definition after (ls : list Label) (w : World) : World :=
  default w (exec (steps IsClose_of_spec ls) w).

Definition fresh_pool : World :=
  NewConnPool 7%nat no_counts no_counts (mkResource 0 2) None.

Definition connected_pool : World :=
  Eval vm_compute in after [run_init] fresh_pool.

Definition full_pool : World :=
  Eval vm_compute in
    after [run_init] (NewConnPool 7%nat no_counts no_counts (mkResource 2 2) None).

Definition refused_pool : World :=
  NewConnPool 7%nat no_counts no_counts (mkResource 0 2) (Some "connection refused").

(** ** Reading the call log *)

(** How many calls of a kind the log holds. *)
Fixpoint count (p : Call → bool) (t : list Call) : nat :=
  match t with
  | [] => 0%nat
  | c :: t' => ((if p c then 1 else 0) + count p t')%nat
  end.

Definition is_OnReady (c : Call) : bool :=
  match c with PoolEventListener_OnReady _ _ _ => true | _ => false end.

Definition is_OnFailure (c : Call) : bool :=
  match c with PoolEventListener_OnFailure _ _ _ => true | _ => false end.

(** A call of either method of a pool event listener. *)
Definition is_callback (c : Call) : bool := is_OnReady c || is_OnFailure c.

(** A call of either method of the listener [l]. *)
Definition callback_to (l : PoolEventListener) (c : Call) : bool :=
  match c with
  | PoolEventListener_OnReady l' _ _ => bool_decide (l' = l)
  | PoolEventListener_OnFailure l' _ _ => bool_decide (l' = l)
  | _ => false
  end.

Definition is_Increase (c : Call) : bool :=
  match c with Requests_Increase => true | _ => false end.

Definition is_Decrease (c : Call) : bool :=
  match c with Requests_Decrease => true | _ => false end.

Definition is_Client_Close (c : Call) : bool :=
  match c with Client_Close _ => true | _ => false end.

(** The calls [newActiveClient] makes for the keep-alive probe: those of
    the block guarded by [protocolValue.(byte)], and none when the context
    carries no byte under [ContextSubProtocol]. *)
Definition keepAlive_calls (ctx : Context) (w : World) : list Call :=
  match as_byte (ctx_Value ctx ContextSubProtocol) with
  | Some proto =>
    [NewSofaRPCKeepAlive (S (next_handle w)) proto time_Second 6
                         (S (S (next_handle w)));
     Connection_AddConnectionEventListener (next_handle w) (S (S (next_handle w)));
     Go_KeepAlive_Start (S (S (next_handle w)))]
  | None => []
  end.

(** One if the construction attempt has run and connected, else zero. *)
Definition constructed (w : World) : Z :=
  if pending_init w then 0
  else match connect_err w with Some _ => 0 | None => 1 end.

(** *** The ledger of a run

    What the counters, the budget and the client objects say after a run
    that started from [NewConnPool h hs cs rq cerr], in terms of the calls
    the run has logged. *)
Record ledger (hs cs : Stats) (rq : Resource) (cerr : option string)
    (w : World) : Prop := mkLedger {
  lg_mirror : ∀ k, Count k (HostStats w) - Count k hs =
                   Count k (ClusterStats w) - Count k cs;
  lg_total : Count UpstreamRequestTotal (HostStats w) =
             Count UpstreamRequestTotal hs + Z.of_nat (count is_OnReady (trace w));
  lg_active : Count UpstreamRequestActive (HostStats w) =
              Count UpstreamRequestActive hs
              + Z.of_nat (count is_Increase (trace w))
              - Z.of_nat (count is_Decrease (trace w));
  lg_inuse : res_inuse (Requests w) =
             res_inuse rq + Z.of_nat (count is_Increase (trace w))
             - Z.of_nat (count is_Decrease (trace w));
  lg_ceiling : res_ceiling (Requests w) = res_ceiling rq;
  lg_ready : count is_Increase (trace w) = count is_OnReady (trace w);
  lg_cerr : connect_err w = cerr;
  lg_conn_total : Count UpstreamConnectionTotal (HostStats w) =
                  Count UpstreamConnectionTotal hs + constructed w;
  lg_conn_active : Count UpstreamConnectionActive (HostStats w) =
                   Count UpstreamConnectionActive hs + constructed w;
  lg_heap : length (heap w) = if pending_init w then 0%nat else 1%nat;
  lg_installed : ∀ a, activeClient (pool w) = Some a →
                      a = 0%nat ∧ constructed w = 1;
  lg_quiet : constructed w = 0 → count is_OnReady (trace w) = 0%nat;
  lg_streams : ∀ a o, heap w !! a = Some o →
                 totalStream o =
                 (N.of_nat (count is_OnReady (trace w)) mod 2 ^ 64)%N
}.

(** A run of the example pool: it connects, opens two streams, sees one
    destroyed and one reset by the connection, is closed from remote, and
    is asked for a third stream. *)
Definition busy_run : list Label :=
  [run_init;
   call_NewStream Background 1%nat 2%nat;
   call_NewStream Background 3%nat 4%nat;
   ev_OnDestroyStream 0%nat;
   ev_OnResetStream 0%nat StreamConnectionFailed;
   ev_OnEvent 0%nat RemoteClose;
   call_NewStream Background 5%nat 6%nat].

Definition busy_pool : World :=
  Eval vm_compute in after busy_run fresh_pool.

(** A context carrying the sub-protocol byte 1. *)
Definition bolt_context : Context :=
  WithValue Background ContextSubProtocol (VByte 1).

(** ** The pool under interleaving

    The methods of a pool run on several goroutines: [go p.init()] started
    by [NewConnPool], the callers of [Active], [NewStream] and [Close], and
    the goroutines of the transport, which deliver the events.  Where a
    method touches what the goroutines share more than once, another
    goroutine can run in between.  The pieces below cut the methods at
    these places: the construction line by line from the one that makes
    the object a listener of the connection (line 191) to the store of
    [init] (line 58), [NewStream] between its snapshot of the field and the
    rest, [Close] between its two reads of the field.  A section under the
    mutex holds a single access of the field, and the only access of the
    field in a handler is the last statement of the handler, so each of
    these is one piece.  The transport can deliver an event to a client
    object as soon as the object listens, and at any point from then on. *)

(** Where the goroutine [go p.init()] stands: the line of connpool.go it
    runs next, with the local variables of [newActiveClient] it still
    needs. *)
Inductive InitPc :=
| init_spawned
| init_l192 (ac : ptr) (codecClient : Client) (data : CreateConnectionData)
| init_l194 (ac : ptr) (codecClient : Client) (data : CreateConnectionData)
| init_l195 (ac : ptr) (codecClient : Client) (data : CreateConnectionData)
| init_l197 (ac : ptr) (codecClient : Client)
| init_l203 (ac : ptr) (codecClient : Client) (d : CreateConnectionData)
| init_l213 (ac : ptr) (codecClient : Client)
| init_l219 (ac : ptr) (codecClient : Client)
| init_l226 (ac : ptr)
| init_l58 (r : option ptr)
| init_returned.

#[global] Instance CreateConnectionData_eq_dec : EqDecision CreateConnectionData.
Proof. solve_decision. Defined.

#[global] Instance InitPc_eq_dec : EqDecision InitPc.
Proof. solve_decision. Defined.

(** One piece of [init], that is of [newActiveClient(ctx, p)] and of the
    store of its result: lines 184 to 191, then 192, 194, 195, 197, 203 to
    211, 213 to 216, 219 to 224, 226 to 228, and line 58. *)
Definition init_piece (ctx : Context) (pc : InitPc) : M InitPc :=
  match pc with
  | init_spawned =>
    w ← get;
    if pending_init w then
      modify (set_pending_init false);;
      ac ← alloc;
      data ← host_CreateConnection ctx;
      connCtx ← mret (WithValue Background ContextKeyConnectionID
                         (VUint64 (N.of_nat (cd_Connection data))));
      codecClient ← createStreamClient connCtx data;
      call (Client_AddConnectionEventListener codecClient ac);;
      mret (init_l192 ac codecClient data)
    else fault
  | init_l192 ac codecClient data =>
    call (Client_SetStreamConnectionEventListener codecClient ac);;
    mret (init_l194 ac codecClient data)
  | init_l194 ac codecClient data =>
    update ac (set_client (Some codecClient));;
    mret (init_l195 ac codecClient data)
  | init_l195 ac codecClient data =>
    update ac (set_ac_host (Some data));;
    mret (init_l197 ac codecClient)
  | init_l197 ac codecClient =>
    o ← deref ac;
    d ← nonnil (ac_host o);
    err ← connection_Connect (cd_Connection d) true;
    mret (match err with
          | Some _ => init_l58 None
          | None => init_l203 ac codecClient d
          end)
  | init_l203 ac codecClient d =>
    match as_byte (ctx_Value ctx ContextSubProtocol) with
    | Some proto =>
      k ← fresh;
      call (NewSofaRPCKeepAlive codecClient proto time_Second 6 k);;
      update ac (set_keepAlive (Some (mkKeepAliveListener k)));;
      call (Connection_AddConnectionEventListener (cd_Connection d) k);;
      call (Go_KeepAlive_Start k)
    | None => mret ()
    end;;
    mret (init_l213 ac codecClient)
  | init_l213 ac codecClient =>
    HostStats_Inc UpstreamConnectionTotal 1;;
    HostStats_Inc UpstreamConnectionActive 1;;
    ClusterStats_Inc UpstreamConnectionTotal 1;;
    ClusterStats_Inc UpstreamConnectionActive 1;;
    mret (init_l219 ac codecClient)
  | init_l219 ac codecClient =>
    call (Client_SetConnectionStats codecClient);;
    mret (init_l226 ac)
  | init_l226 ac =>
    mux_Lock;;
    write_activeClient (Some ac);;
    mux_Unlock;;
    mret (init_l58 (Some ac))
  | init_l58 r =>
    write_activeClient r;;
    mret init_returned
  | init_returned => fault
  end.

(** [NewStream], lines 76 to 78: the snapshot of the field. *)
Definition NewStream_snapshot : M (option ptr) :=
  mux_Lock;;
  activeClient ← read_activeClient;
  mux_Unlock;;
  mret activeClient.

(** [NewStream], lines 80 to 102: what it does with the snapshot. *)
Definition NewStream_rest (ctx : Context) (responseDecoder : StreamReceiveListener)
    (listener : PoolEventListener) (activeClient : option ptr) : M unit :=
  match activeClient with
  | None => call (PoolEventListener_OnFailure listener ConnectionFailure None)
  | Some ac =>
    ok ← requests_CanCreate;
    if negb ok then
      call (PoolEventListener_OnFailure listener Overflow None);;
      HostStats_Inc UpstreamRequestPendingOverflow 1;;
      ClusterStats_Inc UpstreamRequestPendingOverflow 1
    else
      atomic_AddUint64_totalStream ac 1;;
      HostStats_Inc UpstreamRequestTotal 1;;
      HostStats_Inc UpstreamRequestActive 1;;
      ClusterStats_Inc UpstreamRequestTotal 1;;
      ClusterStats_Inc UpstreamRequestActive 1;;
      requests_Increase;;
      o ← deref ac;
      c ← nonnil (client o);
      streamEncoder ← client_NewStream c ctx responseDecoder;
      call (Stream_AddEventListener streamEncoder ac);;
      h ← read_host;
      call (PoolEventListener_OnReady listener streamEncoder h)
  end.

(** [Close], line 106: the test [p.activeClient != nil]. *)
Definition Close_test : M bool :=
  a ← read_activeClient;
  mret (match a with Some _ => true | None => false end).

(** [Close], line 107: [p.activeClient.client.Close()], which reads the
    field again. *)
Definition Close_call : M unit :=
  a' ← read_activeClient;
  ac ← nonnil a';
  o ← deref ac;
  c ← nonnil (client o);
  call (Client_Close c).

(** A call of [NewStream] or [Close] that has started and not returned:
    [NewStream] holds its snapshot, [Close] has found the field set. *)
Inductive Frame :=
| in_NewStream (ctx : Context) (responseDecoder : StreamReceiveListener)
               (listener : PoolEventListener) (activeClient : option ptr)
| in_Close.

(** The pool and its goroutines: what they share, where [init] stands, and
    the calls under way. *)
Record Conc := mkConc {
  shared : World;
  init_at : InitPc;
  frames : list Frame
}.

Definition with_shared (w : World) (c : Conc) : Conc :=
  mkConc w (init_at c) (frames c).

(** What the scheduler and the environment can do next: let [init] run its
    next piece, let a caller run [Active], start or finish a [NewStream]
    or a [Close] (the [i]-th of the calls under way), or deliver an event
    to a client object. *)
Inductive Move :=
| go_init
| whole_Active
| enter_NewStream (ctx : Context) (d : StreamReceiveListener) (l : PoolEventListener)
| leave_NewStream (i : nat)
| enter_Close
| leave_Close (i : nat)
| deliver_OnEvent (ac : ptr) (event : ConnectionEvent)
| deliver_OnDestroyStream (ac : ptr)
| deliver_OnResetStream (ac : ptr) (reason : StreamResetReason)
| deliver_OnGoAway (ac : ptr).

(** A piece run on the shared state; a piece that faults ends the run. *)
Definition resume {A : Type} (m : M A) (c : Conc) (k : A → World → Conc)
    : option Conc :=
  match m (shared c) with
  | Some (a, w) => Some (k a w)
  | None => None
  end.

(** The pool of a fresh [NewConnPool], its goroutine not yet run. *)
Definition spawn (h : Host) (hs cs : Stats) (rq : Resource) (cerr : option string)
    : Conc :=
  mkConc (NewConnPool h hs cs rq cerr) init_spawned [].

(** A state between whole method runs: no call is under way, and [init]
    has either not started or returned. *)
Definition at_rest (w : World) : Conc :=
  mkConc w (if pending_init w then init_spawned else init_returned) [].

Section Interleaving.

Variable IsClose : ConnectionEvent → bool.

Definition move (m : Move) (c : Conc) : option Conc :=
  match m with
  | go_init =>
    resume (init_piece Background (init_at c)) c
           (λ pc w, mkConc w pc (frames c))
  | whole_Active =>
    resume Active c (λ _ w, with_shared w c)
  | enter_NewStream ctx d l =>
    resume NewStream_snapshot c
           (λ a w, mkConc w (init_at c) (frames c ++ [in_NewStream ctx d l a]))
  | leave_NewStream i =>
    match frames c !! i with
    | Some (in_NewStream ctx d l a) =>
      resume (NewStream_rest ctx d l a) c
             (λ _ w, mkConc w (init_at c) (delete i (frames c)))
    | _ => None
    end
  | enter_Close =>
    resume Close_test c
           (λ found w, mkConc w (init_at c)
                         (if found then frames c ++ [in_Close] else frames c))
  | leave_Close i =>
    match frames c !! i with
    | Some in_Close =>
      resume Close_call c (λ _ w, mkConc w (init_at c) (delete i (frames c)))
    | _ => None
    end
  | deliver_OnEvent ac event =>
    resume (OnEvent IsClose ac event) c (λ _ w, with_shared w c)
  | deliver_OnDestroyStream ac =>
    resume (OnDestroyStream ac) c (λ _ w, with_shared w c)
  | deliver_OnResetStream ac reason =>
    resume (OnResetStream ac reason) c (λ _ w, with_shared w c)
  | deliver_OnGoAway ac =>
    resume (OnGoAway ac) c (λ _ w, with_shared w c)
  end.

Fixpoint moves (ms : list Move) (c : Conc) : option Conc :=
  match ms with
  | [] => Some c
  | m :: ms' =>
    match move m c with
    | Some c' => moves ms' c'
    | None => None
    end
  end.

(** The states of a pool and its goroutines: those some schedule reaches
    from a fresh pool. *)
Definition interleaved (c : Conc) : Prop :=
  ∃ h hs cs rq cerr ms, moves ms (spawn h hs cs rq cerr) = Some c.


End Interleaving.

(** An object that can be handed out: it exists and has its stream
    client. *)
Definition usable (w : World) (a : ptr) : Prop :=
  ∃ o, heap w !! a = Some o ∧ is_Some (client o).

(** What the line [init] stands at has made sure of. *)
Definition init_inv (w : World) (pc : InitPc) : Prop :=
  match pc with
  | init_spawned =>
    pending_init w = true ∧ heap w = [] ∧ activeClient (pool w) = None
  | init_l192 ac _ _ | init_l194 ac _ _ =>
    pending_init w = false ∧ is_Some (heap w !! ac)
  | init_l195 ac _ _ =>
    pending_init w = false ∧ usable w ac
  | init_l197 ac _ =>
    pending_init w = false ∧
    ∃ o, heap w !! ac = Some o ∧ is_Some (client o) ∧ is_Some (ac_host o)
  | init_l203 ac _ _ | init_l213 ac _ | init_l219 ac _ | init_l226 ac =>
    pending_init w = false ∧ usable w ac ∧ connect_err w = None
  | init_l58 (Some ac) =>
    pending_init w = false ∧ usable w ac ∧ connect_err w = None
  | init_l58 None => pending_init w = false
  | init_returned => pending_init w = false
  end.

(** The shape of the state between two pieces: the mutex is free, the
    field and every snapshot point to usable objects, and [init] stands
    where the state says. *)
Record cwf (c : Conc) : Prop := mkCwf {
  cwf_mux : mux (pool (shared c)) = false;
  cwf_field : ∀ a, activeClient (pool (shared c)) = Some a → usable (shared c) a;
  cwf_frames : ∀ ctx d l a, in_NewStream ctx d l (Some a) ∈ frames c →
                            usable (shared c) a;
  cwf_init : init_inv (shared c) (init_at c)
}.

(** The objects of [w] are objects of [w'], and those that had a stream
    client or connection data still have them; the transport has not
    changed its mind about the connect. *)
Definition keeps_objects (w w' : World) : Prop :=
  connect_err w' = connect_err w ∧
  ∀ a o, heap w !! a = Some o →
    ∃ o', heap w' !! a = Some o' ∧
          (is_Some (client o) → is_Some (client o')) ∧
          (is_Some (ac_host o) → is_Some (ac_host o')).

(** Nothing was constructed or installed between [w] and [w']: the field
    is as it was or nil. *)
Definition installs_nothing (w w' : World) : Prop :=
  pending_init w' = pending_init w ∧
  length (heap w') = length (heap w) ∧
  (activeClient (pool w') = activeClient (pool w) ∨
   activeClient (pool w') = None).

(** A piece that constructs and installs nothing: started with the mutex
    free, it ends with the mutex free, keeps the objects, and leaves the
    field as it was or nil. *)
Definition tame {A : Type} (m : M A) : Prop :=
  ∀ w r w', mux (pool w) = false → m w = Some (r, w') →
    mux (pool w') = false ∧ keeps_objects w w' ∧ installs_nothing w w'.

(** The example pool while its construction is under way: connected, the
    client not yet stored (line 203 is next). *)
Definition dialing_pool : Conc :=
  Eval vm_compute in
    default (at_rest fresh_pool)
      (moves IsClose_of_spec [go_init; go_init; go_init; go_init; go_init]
             (at_rest fresh_pool)).

(** The example pool with a call of [Close] under way that has found the
    field set. *)
Definition closing_pool : Conc :=
  Eval vm_compute in
    default (at_rest connected_pool)
      (moves IsClose_of_spec [enter_Close] (at_rest connected_pool)).

(** ** Start-up helpers of package mosn

    [initializeMetrics] and [initializeTracing] only call other packages;
    each is the list of the calls it makes, in order.  What the other
    packages answer is a parameter: whether a sink can be made, which
    tracer a name stands for, whether the process is taking over from an
    old one. *)

Module Mosn.

(** The fields of [config.StatsMatcher] the code reads. *)
Record StatsMatcher := mkStatsMatcher {
  RejectAll : bool;
  ExclusionLabels : list string;
  ExclusionKeys : list string
}.

(** An element of [config.SinkConfigs]: [cfg.Type] and [cfg.Config], the
    latter opaque. *)
Record SinkConfig := mkSinkConfig {
  sink_Type : string;
  sink_Config : nat
}.

(** The fields of [config.MetricsConfig] the code reads. *)
Record MetricsConfig := mkMetricsConfig {
  ShmZone : string;
  ShmSize : Z;
  Matcher : StatsMatcher;
  SinkConfigs : list SinkConfig
}.

(** The fields of [config.TracingConfig] the code reads. *)
Record TracingConfig := mkTracingConfig {
  Enable : bool;
  Tracer : string
}.

Inductive Call :=
| InitDefaultMetricsZone (zone : string) (size : Z) (clear : bool)
| SetStatsMatcher (rejectAll : bool) (labels keys : list string)
| CreateMetricsSink (cfg : SinkConfig)
| Errorf_sink_off (cfg : SinkConfig)
| Infof_sink_created (cfg : SinkConfig)
| CreateTracer (name : string)
| SetTracer (tracer : nat)
| Errorf_unknown_tracer (name : string)
| Infof_enable_tracing
| Infof_disable_tracing
| EnableTracing
| DisableTracing.

#[global] Instance SinkConfig_eq_dec : EqDecision SinkConfig.
Proof. solve_decision. Defined.

#[global] Instance Call_eq_dec : EqDecision Call.
Proof. solve_decision. Defined.

Section Collaborators.

(** [sink.CreateMetricsSink(cfg.Type, cfg.Config)] answers without error. *)
Variable sink_ok : SinkConfig → bool.

(** [store.GetMosnState() == store.Active_Reconfiguring]. *)
Variable reconfiguring : bool.

(** [trace.CreateTracer(name)]: a tracer, or nil. *)
Variable tracer_of : string → option nat.

(** The loop over [config.SinkConfigs]: it returns at the first sink that
    cannot be made. *)
Fixpoint create_sinks (cfgs : list SinkConfig) : list Call :=
  match cfgs with
  | [] => []
  | cfg :: rest =>
    CreateMetricsSink cfg ::
    (if sink_ok cfg
     then Infof_sink_created cfg :: create_sinks rest
     else [Errorf_sink_off cfg])
  end.

(** [initializeMetrics]; the size handed to the zone is
    [int(config.ShmSize)], the configured size as an [int]. *)
Definition initializeMetrics (config : MetricsConfig) : list Call :=
  (if bool_decide (ShmZone config ≠ EmptyString) && (0 <? ShmSize config)
   then [InitDefaultMetricsZone (ShmZone config) (ShmSize config)
                                (negb reconfiguring)]
   else []) ++
  SetStatsMatcher (RejectAll (Matcher config)) (ExclusionLabels (Matcher config))
                  (ExclusionKeys (Matcher config)) ::
  create_sinks (SinkConfigs config).

Definition initializeTracing (config : TracingConfig) : list Call :=
  if Enable config && bool_decide (Tracer config ≠ EmptyString) then
    CreateTracer (Tracer config) ::
    match tracer_of (Tracer config) with
    | Some tracer => [SetTracer tracer; Infof_enable_tracing; EnableTracing]
    | None => [Errorf_unknown_tracer (Tracer config); DisableTracing]
    end
  else [Infof_disable_tracing; DisableTracing].

End Collaborators.

(** The sinks a call log asks for, in order. *)
Fixpoint sinks_asked (t : list Call) : list SinkConfig :=
  match t with
  | [] => []
  | CreateMetricsSink cfg :: t' => cfg :: sinks_asked t'
  | _ :: t' => sinks_asked t'
  end.

(** The sinks a call log reports as made. *)
Fixpoint sinks_made (t : list Call) : list SinkConfig :=
  match t with
  | [] => []
  | Infof_sink_created cfg :: t' => cfg :: sinks_made t'
  | _ :: t' => sinks_made t'
  end.

(** The longest run of sinks, from the first on, that can all be made. *)
Fixpoint good_prefix (ok : SinkConfig → bool) (cfgs : list SinkConfig)
    : list SinkConfig :=
  match cfgs with
  | [] => []
  | cfg :: rest => if ok cfg then cfg :: good_prefix ok rest else []
  end.

End Mosn.

(** * Properties *)

(** ** Running the monad *)

Ltac unfold_ops :=
  cbv [NewStream Active Close onStreamDestroy onStreamReset onConnectionEvent
       OnEvent OnDestroyStream OnResetStream OnGoAway init newActiveClient
       spawned_init step createStreamClient host_CreateConnection
       connection_Connect keepAliveListener_OnEvent
       mux_Lock mux_Unlock read_activeClient write_activeClient read_host
       deref update alloc fresh nonnil call access
       HostStats_Inc HostStats_Dec ClusterStats_Inc ClusterStats_Dec
       requests_CanCreate requests_Increase requests_Decrease
       atomic_AddUint64_totalStream client_NewStream
       exec fault get modify mbind M_bind mret M_ret] in *.

Ltac destruct_world w :=
  destruct w as [[? ? ?] ? ? ? ? ? ? ? ? ?]; simpl in *.

Ltac split_cases :=
  simplify_eq/=; repeat (case_match; simplify_eq/=).

Ltac wf_done :=
  split; simpl in *; rewrite ?length_insert, ?length_app; simpl;
  try done;
  try (apply Forall_insert; [done|]; simpl;
       eapply (Forall_lookup_1 (λ o, is_Some (client o))); eassumption);
  eauto.

(** ** Counters *)

Lemma Count_add_count c c' d s :
  Count c (add_count c' d s) = if decide (c' = c) then Count c s + d else Count c s.
Proof. destruct c; reflexivity. Qed.

Lemma Count_Inc c c' n s :
  Count c (Inc c' n s) = Count c s + (if decide (c' = c) then n else 0).
Proof. unfold Inc. rewrite Count_add_count. case_decide; lia. Qed.

Lemma Count_Dec c c' n s :
  Count c (Dec c' n s) = Count c s - (if decide (c' = c) then n else 0).
Proof. unfold Dec. rewrite Count_add_count. case_decide; lia. Qed.

(** ** The heap *)

Lemma lookup_alloc (hp : list ActiveClient) o : (hp ++ [o]) !! length hp = Some o.
Proof. induction hp; simpl; auto. Qed.

Lemma insert_alloc (hp : list ActiveClient) o o' :
  <[length hp := o']> (hp ++ [o]) = hp ++ [o'].
Proof. induction hp; simpl; [done | by f_equal]. Qed.

(** ** Running a computation one bind at a time *)

Lemma bind_step {A B : Type} (m : M A) (k : A → M B) w a w1 :
  m w = Some (a, w1) → (m ≫= k) w = k a w1.
Proof. intros H. unfold mbind, M_bind. by rewrite H. Qed.

Ltac prim :=
  cbv [createStreamClient host_CreateConnection connection_Connect
       mux_Lock mux_Unlock read_activeClient write_activeClient read_host
       deref update alloc fresh nonnil call access
       HostStats_Inc HostStats_Dec ClusterStats_Inc ClusterStats_Dec
       requests_CanCreate requests_Increase requests_Decrease
       atomic_AddUint64_totalStream client_NewStream
       fault get modify mbind M_bind mret M_ret
       set_pool set_heap set_HostStats set_ClusterStats set_Requests
       set_pending_init set_next_handle set_trace set_accesses
       set_activeClient set_mux
       pool heap HostStats ClusterStats Requests connect_err pending_init
       next_handle trace accesses activeClient host mux];
  rewrite ?lookup_alloc, ?insert_alloc;
  cbv beta iota;
  rewrite ?lookup_alloc, ?insert_alloc;
  cbv beta iota.

Ltac mstep :=
  erewrite bind_step; [ | prim; reflexivity ]; cbv beta.

Ltac mdone :=
  prim; rewrite <- ?app_assoc; simpl; reflexivity.

(** ** Construction of the client *)

Lemma newActiveClient_fail ctx w e :
  connect_err w = Some e →
  newActiveClient ctx w =
    Some (None,
      set_trace (trace w ++ dial_calls ctx w)
        (set_next_handle (S (S (next_handle w)))
          (set_heap (heap w ++ [dialed_client w]) w))).
Proof.
  destruct_world w. intros ->.
  unfold newActiveClient, dial_calls, dialed_client.
  repeat mstep. mdone.
Qed.

Lemma newActiveClient_plain ctx w :
  connect_err w = None →
  mux (pool w) = false →
  as_byte (ctx_Value ctx ContextSubProtocol) = None →
  newActiveClient ctx w =
    Some (Some (length (heap w)),
      set_pool (set_activeClient (Some (length (heap w))) (pool w))
        (set_accesses
           (accesses w ++ [Acquire; WriteField (Some (length (heap w))); Release])
        (set_trace
           (trace w ++ dial_calls ctx w ++ [Client_SetConnectionStats (S (next_handle w))])
        (set_ClusterStats
           (Inc UpstreamConnectionActive 1 (Inc UpstreamConnectionTotal 1 (ClusterStats w)))
        (set_HostStats
           (Inc UpstreamConnectionActive 1 (Inc UpstreamConnectionTotal 1 (HostStats w)))
        (set_next_handle (S (S (next_handle w)))
        (set_heap (heap w ++ [dialed_client w]) w))))))).
Proof.
  destruct_world w. intros -> -> Hb.
  unfold newActiveClient, dial_calls, dialed_client.
  do 10 mstep. cbv iota. rewrite Hb.
  repeat mstep. mdone.
Qed.

Lemma newActiveClient_keepAlive ctx w proto :
  connect_err w = None →
  mux (pool w) = false →
  as_byte (ctx_Value ctx ContextSubProtocol) = Some proto →
  newActiveClient ctx w =
    Some (Some (length (heap w)),
      set_pool (set_activeClient (Some (length (heap w))) (pool w))
        (set_accesses
           (accesses w ++ [Acquire; WriteField (Some (length (heap w))); Release])
        (set_trace
           (trace w ++ dial_calls ctx w ++
            [NewSofaRPCKeepAlive (S (next_handle w)) proto time_Second 6
                                 (S (S (next_handle w)));
             Connection_AddConnectionEventListener (next_handle w) (S (S (next_handle w)));
             Go_KeepAlive_Start (S (S (next_handle w)));
             Client_SetConnectionStats (S (next_handle w))])
        (set_ClusterStats
           (Inc UpstreamConnectionActive 1 (Inc UpstreamConnectionTotal 1 (ClusterStats w)))
        (set_HostStats
           (Inc UpstreamConnectionActive 1 (Inc UpstreamConnectionTotal 1 (HostStats w)))
        (set_next_handle (S (S (S (next_handle w))))
        (set_heap
           (heap w ++
            [set_keepAlive (Some (mkKeepAliveListener (S (S (next_handle w)))))
                           (dialed_client w)])
           w))))))).
Proof.
  destruct_world w. intros -> -> Hb.
  unfold newActiveClient, dial_calls, dialed_client.
  do 10 mstep. cbv iota. rewrite Hb.
  repeat mstep. mdone.
Qed.

Lemma init_fail w e :
  connect_err w = Some e →
  init w =
    Some ((),
      set_pool (set_activeClient None (pool w))
        (set_accesses (accesses w ++ [WriteField None])
        (set_trace (trace w ++ dial_calls Background w)
        (set_next_handle (S (S (next_handle w)))
        (set_heap (heap w ++ [dialed_client w]) w))))).
Proof.
  intros He. unfold init.
  erewrite bind_step; [|by apply (newActiveClient_fail _ _ e)].
  by destruct_world w.
Qed.

Lemma init_ok w :
  connect_err w = None →
  mux (pool w) = false →
  init w =
    Some ((),
      set_pool (set_activeClient (Some (length (heap w))) (pool w))
        (set_accesses
           (accesses w ++ [Acquire; WriteField (Some (length (heap w))); Release;
                           WriteField (Some (length (heap w)))])
        (set_trace
           (trace w ++ dial_calls Background w ++
            [Client_SetConnectionStats (S (next_handle w))])
        (set_ClusterStats
           (Inc UpstreamConnectionActive 1 (Inc UpstreamConnectionTotal 1 (ClusterStats w)))
        (set_HostStats
           (Inc UpstreamConnectionActive 1 (Inc UpstreamConnectionTotal 1 (HostStats w)))
        (set_next_handle (S (S (next_handle w)))
        (set_heap (heap w ++ [dialed_client w]) w))))))).
Proof.
  intros He Hm. unfold init.
  erewrite bind_step; [|by apply newActiveClient_plain].
  destruct_world w. prim. rewrite <- ?app_assoc. reflexivity.
Qed.

(** ** Stream creation *)

Lemma Active_spec w :
  mux (pool w) = false →
  Active w =
    Some (bool_decide (is_Some (activeClient (pool w))),
          set_accesses (accesses w ++ [Acquire; ReadField; Release]) w).
Proof.
  destruct_world w. intros ->. unfold Active.
  repeat mstep. prim. rewrite <- ?app_assoc. simpl.
  by destruct activeClient0.
Qed.

Lemma NewStream_nil ctx d l w :
  mux (pool w) = false →
  activeClient (pool w) = None →
  NewStream ctx d l w =
    Some ((),
      set_trace (trace w ++ [PoolEventListener_OnFailure l ConnectionFailure None])
        (set_accesses (accesses w ++ [Acquire; ReadField; Release]) w)).
Proof.
  destruct_world w. intros -> ->. unfold NewStream.
  repeat mstep. mdone.
Qed.

Lemma NewStream_overflow ctx d l w a :
  mux (pool w) = false →
  activeClient (pool w) = Some a →
  CanCreate (Requests w) = false →
  NewStream ctx d l w =
    Some ((),
      set_ClusterStats (Inc UpstreamRequestPendingOverflow 1 (ClusterStats w))
        (set_HostStats (Inc UpstreamRequestPendingOverflow 1 (HostStats w))
        (set_trace
           (trace w ++ [Requests_CanCreate false;
                        PoolEventListener_OnFailure l Overflow None])
        (set_accesses (accesses w ++ [Acquire; ReadField; Release]) w)))).
Proof.
  destruct_world w. intros -> -> Hc. unfold NewStream.
  do 4 mstep. rewrite Hc. cbv iota beta delta [negb].
  repeat mstep. mdone.
Qed.

Lemma NewStream_admitted ctx d l w a o c :
  mux (pool w) = false →
  activeClient (pool w) = Some a →
  heap w !! a = Some o →
  client o = Some c →
  CanCreate (Requests w) = true →
  NewStream ctx d l w =
    Some ((),
      set_trace
        (trace w ++ [Requests_CanCreate true;
                     Requests_Increase;
                     Client_NewStream c ctx d (next_handle w);
                     Stream_AddEventListener (next_handle w) a;
                     PoolEventListener_OnReady l (next_handle w) (host (pool w))])
        (set_next_handle (S (next_handle w))
        (set_Requests (Increase (Requests w))
        (set_ClusterStats
           (Inc UpstreamRequestActive 1 (Inc UpstreamRequestTotal 1 (ClusterStats w)))
        (set_HostStats
           (Inc UpstreamRequestActive 1 (Inc UpstreamRequestTotal 1 (HostStats w)))
        (set_heap (<[a := set_totalStream (AddUint64 (totalStream o) 1) o]> (heap w))
        (set_accesses (accesses w ++ [Acquire; ReadField; Release]) w))))))).
Proof.
  destruct_world w. intros -> -> Ho Hcl Hc. unfold NewStream.
  do 4 mstep. rewrite Hc. cbv iota beta delta [negb].
  assert (Hlt : (a < length heap0)%nat) by (by eapply lookup_lt_Some).
  erewrite bind_step; [|prim; rewrite Ho; reflexivity]. cbv beta.
  do 5 mstep.
  erewrite bind_step;
    [|prim; rewrite list_lookup_insert_eq by done; reflexivity].
  cbv beta. cbn [client set_totalStream]. rewrite Hcl.
  repeat mstep. mdone.
Qed.

(** ** The reducers *)

Lemma onStreamDestroy_spec cli w :
  onStreamDestroy cli w =
    Some ((),
      set_Requests (Decrease (Requests w))
        (set_trace (trace w ++ [Requests_Decrease])
        (set_ClusterStats (Dec UpstreamRequestActive 1 (ClusterStats w))
        (set_HostStats (Dec UpstreamRequestActive 1 (HostStats w)) w)))).
Proof. by destruct_world w. Qed.

Lemma onStreamReset_eject cli reason w o :
  reason = StreamConnectionTermination ∨ reason = StreamConnectionFailed →
  heap w !! cli = Some o →
  onStreamReset cli reason w =
    Some ((),
      set_heap (<[cli := set_closeWithActiveReq true o]> (heap w))
        (set_ClusterStats (Inc UpstreamRequestFailureEject 1 (ClusterStats w))
        (set_HostStats (Inc UpstreamRequestFailureEject 1 (HostStats w)) w))).
Proof.
  destruct_world w. intros Hr Ho. unfold onStreamReset.
  rewrite decide_True by done.
  do 2 mstep. prim. by rewrite Ho.
Qed.

Lemma onStreamReset_local cli w :
  onStreamReset cli StreamLocalReset w =
    Some ((),
      set_ClusterStats (Inc UpstreamRequestLocalReset 1 (ClusterStats w))
        (set_HostStats (Inc UpstreamRequestLocalReset 1 (HostStats w)) w)).
Proof. by destruct_world w. Qed.

Lemma onStreamReset_remote cli w :
  onStreamReset cli StreamRemoteReset w =
    Some ((),
      set_ClusterStats (Inc UpstreamRequestRemoteReset 1 (ClusterStats w))
        (set_HostStats (Inc UpstreamRequestRemoteReset 1 (HostStats w)) w)).
Proof. by destruct_world w. Qed.

Lemma onStreamReset_other cli name w :
  onStreamReset cli (OtherReset name) w = Some ((), w).
Proof. by destruct_world w. Qed.

Lemma Count_Inc_named k c s :
  Count k (Inc_named c s) = Count k s + (if decide (c = Some k) then 1 else 0).
Proof.
  destruct c as [c|]; simpl.
  - rewrite Count_Inc. repeat case_decide; simplify_eq; lia.
  - lia.
Qed.

Section ConnectionEventSpecs.

Variable IsClose : ConnectionEvent → bool.

Lemma onConnectionEvent_close cli event w o :
  IsClose event = true →
  event ≠ ConnectTimeout → event ≠ ConnectFailed →
  heap w !! cli = Some o →
  onConnectionEvent IsClose cli event w =
    Some ((),
      set_pool (set_activeClient None (pool w))
        (set_accesses (accesses w ++ [WriteField None])
        (set_ClusterStats
           (Inc_named (event_counter event (closeWithActiveReq o)) (ClusterStats w))
        (set_HostStats
           (Inc_named (event_counter event (closeWithActiveReq o)) (HostStats w))
           w)))).
Proof.
  destruct_world w. intros Hc Ht Hf Ho. unfold onConnectionEvent.
  rewrite Hc. erewrite bind_step; [|prim; rewrite Ho; reflexivity]. cbv beta.
  destruct (closeWithActiveReq o); destruct event; try done.
Qed.

Lemma onConnectionEvent_timeout cli w o c :
  IsClose ConnectTimeout = false →
  heap w !! cli = Some o →
  client o = Some c →
  onConnectionEvent IsClose cli ConnectTimeout w =
    Some ((),
      set_pool (set_activeClient None (pool w))
        (set_accesses (accesses w ++ [WriteField None])
        (set_trace (trace w ++ [Client_Close c])
        (set_ClusterStats (Inc UpstreamRequestTimeout 1 (ClusterStats w))
        (set_HostStats (Inc UpstreamRequestTimeout 1 (HostStats w)) w))))).
Proof.
  destruct_world w. intros Hc Ho Hcl. unfold onConnectionEvent.
  rewrite Hc. rewrite decide_True by done.
  do 2 mstep.
  erewrite bind_step; [|prim; rewrite Ho; reflexivity]. cbv beta.
  rewrite Hcl. repeat mstep. mdone.
Qed.

Lemma onConnectionEvent_failed cli w :
  IsClose ConnectFailed = false →
  onConnectionEvent IsClose cli ConnectFailed w =
    Some ((),
      set_pool (set_activeClient None (pool w))
        (set_accesses (accesses w ++ [WriteField None])
        (set_ClusterStats (Inc UpstreamConnectionConFail 1 (ClusterStats w))
        (set_HostStats (Inc UpstreamConnectionConFail 1 (HostStats w)) w)))).
Proof.
  destruct_world w. intros Hc. unfold onConnectionEvent.
  rewrite Hc. rewrite decide_False by done. rewrite decide_True by done.
  repeat mstep. mdone.
Qed.

Lemma onConnectionEvent_other cli event w :
  IsClose event = false →
  event ≠ ConnectTimeout → event ≠ ConnectFailed →
  onConnectionEvent IsClose cli event w = Some ((), w).
Proof.
  intros Hc Ht Hf. unfold onConnectionEvent.
  rewrite Hc. by rewrite !decide_False by done.
Qed.

End ConnectionEventSpecs.

(** ** The invariant of the machine *)

Section Invariant.

Variable IsClose : ConnectionEvent → bool.

Lemma wf_NewConnPool h hs cs rq cerr : wf (NewConnPool h hs cs rq cerr).
Proof. by split. Qed.

Lemma step_wf l w w' :
  wf w → l ≠ run_init → exec (step IsClose l) w = Some w' → wf w'.
Proof.
  intros [Hm Hc Ha Hp] Hl.
  destruct_world w. subst.
  destruct l; try done; unfold_ops; simpl; intros H; split_cases.
  all: wf_done.
Qed.

Lemma spawned_init_wf w w' :
  wf w → exec spawned_init w = Some w' → wf w'.
Proof.
  intros [Hm Hc Ha Hp].
  unfold exec, spawned_init.
  erewrite bind_step; [|reflexivity]. cbv beta.
  destruct (pending_init w) eqn:Hpi; [|done].
  erewrite bind_step; [|reflexivity]. cbv beta.
  destruct (connect_err w) as [e|] eqn:He.
  - rewrite (init_fail _ e); [|done]. intros [= <-].
    destruct_world w. split; simpl; try done.
    apply Forall_app; split; [done|]. repeat constructor. simpl; eauto.
  - rewrite init_ok; [|done|done]. intros [= <-].
    destruct_world w. split; simpl; try done.
    + apply Forall_app; split; [done|]. repeat constructor. simpl; eauto.
    + intros ? [= <-]. rewrite length_app. simpl. lia.
Qed.

Lemma steps_wf ls w w' :
  wf w → exec (steps IsClose ls) w = Some w' → wf w'.
Proof.
  revert w. induction ls as [|l ls IH]; intros w Hw.
  - cbv. by intros [= <-].
  - simpl. unfold exec, mbind, M_bind.
    destruct (step IsClose l w) as [[[] w1]|] eqn:Hs; [|done].
    intros H. apply (IH w1); [|exact H].
    destruct (decide (l = run_init)) as [->|Hne].
    + apply (spawned_init_wf w); [done|]. simpl in Hs. unfold exec. by rewrite Hs.
    + apply (step_wf l w); [done|done|]. unfold exec. by rewrite Hs.
Qed.

Lemma onConnectionEvent_terminal cli event w o c :
  heap w !! cli = Some o →
  client o = Some c →
  terminal IsClose event = true →
  ∃ w1,
    onConnectionEvent IsClose cli event w = Some ((), w1) ∧
    activeClient (pool w1) = None ∧
    pending_init w1 = pending_init w.
Proof.
  destruct_world w. intros Ho Hc. unfold terminal, onConnectionEvent.
  destruct (IsClose event); simpl orb.
  - intros _. erewrite bind_step; [|prim; rewrite Ho; reflexivity]. cbv beta.
    destruct (closeWithActiveReq o); repeat case_decide;
      (eexists; split; [reflexivity|done]).
  - intros Hterm.
    destruct (decide (event = ConnectTimeout)) as [Ht|Ht].
    + do 2 mstep. erewrite bind_step; [|prim; rewrite Ho; reflexivity].
      cbv beta. rewrite Hc. eexists; split; [reflexivity|done].
    + destruct (decide (event = ConnectFailed)) as [Hf|Hf].
      * eexists; split; [reflexivity|done].
      * exfalso. revert Hterm. by rewrite !bool_decide_eq_false_2 by done.
Qed.

Lemma OnEvent_live ac event w o :
  heap w !! ac = Some o →
  OnEvent IsClose ac event w = onConnectionEvent IsClose ac event w.
Proof.
  intros Ho. unfold OnEvent.
  erewrite bind_step; [done|]. unfold deref.
  erewrite bind_step by reflexivity. by rewrite Ho.
Qed.

Lemma reachable_wf w : reachable IsClose w → wf w.
Proof.
  intros (h & hs & cs & rq & cerr & ls & H).
  eapply steps_wf; [apply wf_NewConnPool | exact H].
Qed.

End Invariant.

(** ** Example states are states of the machine *)

Lemma reachable_NewConnPool IsClose h hs cs rq cerr :
  reachable IsClose (NewConnPool h hs cs rq cerr).
Proof. by exists h, hs, cs, rq, cerr, []. Qed.

Lemma reachable_connected_pool : reachable IsClose_of_spec connected_pool.
Proof.
  exists 7%nat, no_counts, no_counts, (mkResource 0 2), None, [run_init].
  vm_compute. reflexivity.
Qed.

Lemma reachable_full_pool : reachable IsClose_of_spec full_pool.
Proof.
  exists 7%nat, no_counts, no_counts, (mkResource 2 2), None, [run_init].
  vm_compute. reflexivity.
Qed.

(** ** Stream creation: the three outcomes of [NewStream] *)



(** C2. On a pool without client ([Active()] answers false) [NewStream]
    returns after one call of [OnFailure(ConnectionFailure, nil)] and
    nothing else: apart from that call and the locked read of the field the
    state is the one before, so no counter of the host or the cluster
    moved, the budget was neither asked nor used, no stream was made, and
    the pool keeps no trace of the request. *)
Theorem C2_NewStream_without_client IsClose ctx d l w :
  reachable IsClose w →
  activeClient (pool w) = None →
  (∃ w1, Active w = Some (false, w1)) ∧
  ∃ w',
    NewStream ctx d l w = Some ((), w') ∧
    trace w' = trace w ++ [PoolEventListener_OnFailure l ConnectionFailure None] ∧
    accesses w' = accesses w ++ [Acquire; ReadField; Release] ∧
    w' = set_trace (trace w') (set_accesses (accesses w') w) ∧
    HostStats w' = HostStats w ∧
    ClusterStats w' = ClusterStats w ∧
    Requests w' = Requests w ∧
    heap w' = heap w ∧
    next_handle w' = next_handle w ∧
    pool w' = pool w.
Proof.
  intros Hr Ha. apply reachable_wf in Hr as [Hm _ _ _].
  split.
  - eexists. rewrite Active_spec by done. by rewrite Ha.
  - eexists. split; [by apply NewStream_nil|].
    by destruct_world w.
Qed.

Lemma C2_witness :
  reachable IsClose_of_spec fresh_pool ∧
  activeClient (pool fresh_pool) = None ∧
  ∃ w', NewStream Background 1%nat 2%nat fresh_pool = Some ((), w') ∧
        trace w' = [PoolEventListener_OnFailure 2%nat ConnectionFailure None] ∧
        HostStats w' = no_counts ∧ ClusterStats w' = no_counts.
Proof.
  assert (Hr : reachable IsClose_of_spec fresh_pool)
    by apply reachable_NewConnPool.
  split; [exact Hr|]. split; [reflexivity|].
  destruct (C2_NewStream_without_client IsClose_of_spec Background 1%nat 2%nat
              fresh_pool Hr eq_refl)
    as (_ & w' & Hw' & Ht & _ & _ & Hh & Hc & _).
  exists w'. split; [exact Hw'|]. split; [exact Ht|]. split; [exact Hh|exact Hc].
Defined.

(** C3. On a pool with a client installed whose budget refuses the
    request, [NewStream] calls [OnFailure(Overflow, nil)] once, adds one to
    [UpstreamRequestPendingOverflow] of the host and of the cluster and
    to no other counter (the active and total request counters stay), makes
    no stream, does not call [Requests().Increase()], and leaves the budget
    and every client object, [totalStream] included, as they were. *)
Theorem C3_NewStream_overflow IsClose ctx d l w a :
  reachable IsClose w →
  activeClient (pool w) = Some a →
  CanCreate (Requests w) = false →
  ∃ w',
    NewStream ctx d l w = Some ((), w') ∧
    trace w' = trace w ++ [Requests_CanCreate false;
                           PoolEventListener_OnFailure l Overflow None] ∧
    (∀ k, Count k (HostStats w') = Count k (HostStats w) +
          if decide (k = UpstreamRequestPendingOverflow) then 1 else 0) ∧
    (∀ k, Count k (ClusterStats w') = Count k (ClusterStats w) +
          if decide (k = UpstreamRequestPendingOverflow) then 1 else 0) ∧
    Requests w' = Requests w ∧
    heap w' = heap w ∧
    next_handle w' = next_handle w ∧
    pool w' = pool w.
Proof.
  intros Hr Ha Hc. apply reachable_wf in Hr as [Hm _ _ _].
  eexists. split; [by apply (NewStream_overflow ctx d l w a)|].
  destruct_world w. subst. simpl.
  repeat split; try done.
  - intros k. rewrite Count_Inc. destruct k; simpl; lia.
  - intros k. rewrite Count_Inc. destruct k; simpl; lia.
Qed.

Lemma C3_witness :
  reachable IsClose_of_spec full_pool ∧
  activeClient (pool full_pool) = Some 0%nat ∧
  CanCreate (Requests full_pool) = false ∧
  ∃ w', NewStream Background 1%nat 2%nat full_pool = Some ((), w') ∧
        Count UpstreamRequestPendingOverflow (HostStats w') = 1 ∧
        Count UpstreamRequestActive (HostStats w') = 0.
Proof.
  assert (Hr := reachable_full_pool).
  assert (Ha : activeClient (pool full_pool) = Some 0%nat)
    by (vm_compute; reflexivity).
  assert (Hc : CanCreate (Requests full_pool) = false)
    by (vm_compute; reflexivity).
  split; [exact Hr|]. split; [exact Ha|]. split; [exact Hc|].
  destruct (C3_NewStream_overflow IsClose_of_spec Background 1%nat 2%nat
              full_pool 0%nat Hr Ha Hc)
    as (w' & Hw' & _ & Hh & _).
  exists w'. split; [exact Hw'|]. rewrite !Hh. split; vm_compute; reflexivity.
Defined.

(** ** Accounting of streams *)

Lemma NewStream_accounts ctx d l w w' :
  exec (NewStream ctx d l) w = Some w' →
  is_Some (activeClient (pool w)) →
  CanCreate (Requests w) = true →
  HostStats w' =
    Inc UpstreamRequestActive 1 (Inc UpstreamRequestTotal 1 (HostStats w)) ∧
  ClusterStats w' =
    Inc UpstreamRequestActive 1 (Inc UpstreamRequestTotal 1 (ClusterStats w)) ∧
  Requests w' = Increase (Requests w).
Proof.
  destruct_world w. intros H [a ->] Hc. revert H.
  destruct mux0; unfold_ops; simpl; [done|].
  rewrite Hc. simpl.
  intros H; split_cases; done.
Qed.

Lemma NewStreams_accounts calls w :
  all_successful calls w →
  ∃ w1,
    exec (NewStreams calls) w = Some w1 ∧
    Count UpstreamRequestActive (HostStats w1) =
      Count UpstreamRequestActive (HostStats w) + Z.of_nat (length calls) ∧
    Count UpstreamRequestActive (ClusterStats w1) =
      Count UpstreamRequestActive (ClusterStats w) + Z.of_nat (length calls) ∧
    res_inuse (Requests w1) = res_inuse (Requests w) + Z.of_nat (length calls) ∧
    res_ceiling (Requests w1) = res_ceiling (Requests w).
Proof.
  revert w. induction calls as [|[[ctx d] l] calls IH]; intros w.
  - intros _. exists w. cbn [length Z.of_nat]. rewrite !Z.add_0_r. done.
  - intros (Ha & Hc & w' & Hw' & Hall).
    destruct (NewStream_accounts ctx d l w w' Hw' Ha Hc) as (Hh & Hcl & Hq).
    destruct (IH w' Hall) as (w1 & Hw1 & Hh1 & Hcl1 & Hq1 & Hq2).
    exists w1. split.
    + revert Hw' Hw1. cbn [NewStreams]. unfold exec, mbind, M_bind.
      destruct (NewStream ctx d l w) as [[[] v]|]; [|done].
      by intros [= ->].
    + rewrite Hh1, Hcl1, Hq1, Hq2, Hh, Hcl, Hq, !Count_Inc.
      cbn [length Increase res_inuse res_ceiling].
      rewrite !decide_False, decide_True by done. lia.
Qed.

Lemma DestroyStreams_accounts clis w :
  ∃ w2,
    exec (DestroyStreams clis) w = Some w2 ∧
    Count UpstreamRequestActive (HostStats w2) =
      Count UpstreamRequestActive (HostStats w) - Z.of_nat (length clis) ∧
    Count UpstreamRequestActive (ClusterStats w2) =
      Count UpstreamRequestActive (ClusterStats w) - Z.of_nat (length clis) ∧
    res_inuse (Requests w2) = res_inuse (Requests w) - Z.of_nat (length clis) ∧
    res_ceiling (Requests w2) = res_ceiling (Requests w).
Proof.
  revert w. induction clis as [|cli clis IH]; intros w.
  - exists w. cbn [length Z.of_nat]. rewrite !Z.sub_0_r. done.
  - cbn [DestroyStreams]. unfold exec.
    erewrite bind_step by apply onStreamDestroy_spec.
    match goal with |- context [DestroyStreams clis ?v] =>
      destruct (IH v) as (w2 & Hw2 & Hh & Hc & Hq1 & Hq2) end.
    exists w2. split; [exact Hw2|].
    rewrite Hh, Hc, Hq1, Hq2.
    cbn [HostStats ClusterStats Requests set_Requests set_trace
         set_ClusterStats set_HostStats Decrease res_inuse res_ceiling length].
    rewrite !Count_Dec. rewrite !decide_True by done. lia.
Qed.

(** C5. [onStreamDestroy] undoes the accounting of a successful
    [NewStream]: each call takes one from [UpstreamRequestActive] of the
    host and of the cluster (and from no other counter) and calls
    [Requests().Decrease()] once, releasing one request of the budget.  So
    after any number of successful [NewStream] calls followed by as many
    destroy notifications the active-request counters of host and cluster
    and the budget are what they were before the first call. *)
Theorem C5_destroy_inverts_NewStream calls clis w :
  all_successful calls w →
  length clis = length calls →
  (∀ cli v, ∃ v',
     onStreamDestroy cli v = Some ((), v') ∧
     (∀ k, Count k (HostStats v') = Count k (HostStats v) -
           if decide (k = UpstreamRequestActive) then 1 else 0) ∧
     (∀ k, Count k (ClusterStats v') = Count k (ClusterStats v) -
           if decide (k = UpstreamRequestActive) then 1 else 0) ∧
     Requests v' = Decrease (Requests v) ∧
     trace v' = trace v ++ [Requests_Decrease] ∧
     pool v' = pool v ∧ heap v' = heap v) ∧
  ∃ w1 w2,
    exec (NewStreams calls) w = Some w1 ∧
    exec (DestroyStreams clis) w1 = Some w2 ∧
    Count UpstreamRequestActive (HostStats w1) =
      Count UpstreamRequestActive (HostStats w) + Z.of_nat (length calls) ∧
    Count UpstreamRequestActive (ClusterStats w1) =
      Count UpstreamRequestActive (ClusterStats w) + Z.of_nat (length calls) ∧
    res_inuse (Requests w1) = res_inuse (Requests w) + Z.of_nat (length calls) ∧
    Count UpstreamRequestActive (HostStats w2) =
      Count UpstreamRequestActive (HostStats w) ∧
    Count UpstreamRequestActive (ClusterStats w2) =
      Count UpstreamRequestActive (ClusterStats w) ∧
    Requests w2 = Requests w.
Proof.
  intros Hall Hlen. split.
  - intros cli v. eexists. split; [apply onStreamDestroy_spec|].
    cbn [HostStats ClusterStats Requests trace pool heap set_Requests set_trace
         set_ClusterStats set_HostStats].
    repeat split.
    + intros k. rewrite Count_Dec. destruct k; simpl; lia.
    + intros k. rewrite Count_Dec. destruct k; simpl; lia.
  - destruct (NewStreams_accounts calls w Hall)
      as (w1 & Hw1 & Hh1 & Hc1 & Hq1 & Hq1').
    destruct (DestroyStreams_accounts clis w1)
      as (w2 & Hw2 & Hh2 & Hc2 & Hq2 & Hq2').
    exists w1, w2. rewrite Hlen in *.
    repeat split; try done; try lia.
    destruct (Requests w2), (Requests w). simpl in *. f_equal; lia.
Qed.

Lemma C5_witness :
  all_successful [(Background, 1%nat, 2%nat); (Background, 3%nat, 4%nat)]
                 connected_pool ∧
  ∃ w1 w2,
    exec (NewStreams [(Background, 1%nat, 2%nat); (Background, 3%nat, 4%nat)])
         connected_pool = Some w1 ∧
    exec (DestroyStreams [0%nat; 0%nat]) w1 = Some w2 ∧
    Count UpstreamRequestActive (HostStats w1) = 2 ∧
    Count UpstreamRequestActive (HostStats w2) = 0 ∧
    Requests w2 = Requests connected_pool.
Proof.
  assert (Hall : all_successful
            [(Background, 1%nat, 2%nat); (Background, 3%nat, 4%nat)]
            connected_pool).
  { split; [vm_compute; eauto|]. split; [vm_compute; reflexivity|].
    eexists. split; [vm_compute; reflexivity|].
    split; [vm_compute; eauto|]. split; [vm_compute; reflexivity|].
    eexists. split; [vm_compute; reflexivity|]. exact I. }
  split; [exact Hall|].
  destruct (C5_destroy_inverts_NewStream
              [(Background, 1%nat, 2%nat); (Background, 3%nat, 4%nat)]
              [0%nat; 0%nat] connected_pool Hall eq_refl)
    as (_ & w1 & w2 & Hw1 & Hw2 & Hh1 & _ & _ & Hh2 & _ & Hq).
  exists w1, w2. split; [exact Hw1|]. split; [exact Hw2|].
  split; [rewrite Hh1; vm_compute; reflexivity|].
  split; [rewrite Hh2; vm_compute; reflexivity|exact Hq].
Defined.

(** ** The reducers against the tables of the spec *)

(** C6. [onConnectionEvent] follows the connection-event table.  With
    [ConnectTimeout] and [ConnectFailed] not among the close events, a
    terminal event for a client with [closeWithActiveReq = b] adds one, at
    the host and at the cluster, to the counter [event_counter event b]
    names and to no other: the local-close (remote-close) counter for a
    [LocalClose] ([RemoteClose]) with the flag set, none for a close event
    with the flag unset, the request-timeout counter for [ConnectTimeout],
    the connection-failure counter for [ConnectFailed].  [ConnectTimeout]
    also closes the connection through the stream client, the other events
    do not; in every case [activeClient] is nil afterwards. *)
Theorem C6_onConnectionEvent_table IsClose cli event w o c :
  IsClose ConnectTimeout = false →
  IsClose ConnectFailed = false →
  heap w !! cli = Some o →
  client o = Some c →
  terminal IsClose event = true →
  ∃ w',
    onConnectionEvent IsClose cli event w = Some ((), w') ∧
    (∀ k, Count k (HostStats w') = Count k (HostStats w) +
          if decide (event_counter event (closeWithActiveReq o) = Some k)
          then 1 else 0) ∧
    (∀ k, Count k (ClusterStats w') = Count k (ClusterStats w) +
          if decide (event_counter event (closeWithActiveReq o) = Some k)
          then 1 else 0) ∧
    activeClient (pool w') = None ∧
    trace w' = trace w ++
               (if decide (event = ConnectTimeout) then [Client_Close c] else []) ∧
    heap w' = heap w ∧
    Requests w' = Requests w.
Proof.
  intros Ht Hf Ho Hc Hterm.
  destruct (IsClose event) eqn:Hcl.
  - assert (event ≠ ConnectTimeout) by congruence.
    assert (event ≠ ConnectFailed) by congruence.
    eexists. split; [by apply (onConnectionEvent_close IsClose cli event w o)|].
    cbn [HostStats ClusterStats Requests trace pool heap activeClient
         set_pool set_accesses set_ClusterStats set_HostStats set_activeClient].
    rewrite decide_False by done. rewrite app_nil_r.
    repeat split; intros k; apply Count_Inc_named.
  - unfold terminal in Hterm. rewrite Hcl in Hterm. simpl in Hterm.
    apply orb_true_iff in Hterm as [He|He]; apply bool_decide_eq_true in He;
      subst event.
    + eexists.
      split; [by apply (onConnectionEvent_timeout IsClose cli w o c)|].
      cbn [HostStats ClusterStats Requests trace pool heap activeClient
           set_pool set_accesses set_trace set_ClusterStats set_HostStats
           set_activeClient event_counter].
      repeat split; try done.
      all: intros k; rewrite Count_Inc; destruct k; simpl; lia.
    + eexists.
      split; [by apply (onConnectionEvent_failed IsClose cli w)|].
      cbn [HostStats ClusterStats Requests trace pool heap activeClient
           set_pool set_accesses set_trace set_ClusterStats set_HostStats
           set_activeClient event_counter].
      rewrite app_nil_r.
      repeat split; try done.
      all: intros k; rewrite Count_Inc; destruct k; simpl; lia.
Qed.

Lemma C6_witness :
  IsClose_of_spec ConnectTimeout = false ∧
  IsClose_of_spec ConnectFailed = false ∧
  terminal IsClose_of_spec ConnectTimeout = true ∧
  ∃ w', onConnectionEvent IsClose_of_spec 0%nat ConnectTimeout connected_pool
          = Some ((), w') ∧
        Count UpstreamRequestTimeout (HostStats w') = 1 ∧
        Count UpstreamRequestTimeout (ClusterStats w') = 1 ∧
        activeClient (pool w') = None ∧
        trace w' = trace connected_pool ++ [Client_Close 1%nat].
Proof.
  split; [reflexivity|]. split; [reflexivity|]. split; [reflexivity|].
  destruct (C6_onConnectionEvent_table IsClose_of_spec 0%nat ConnectTimeout
              connected_pool (dialed_client fresh_pool) 1%nat
              eq_refl eq_refl eq_refl eq_refl eq_refl)
    as (w' & Hw' & Hh & Hc & Ha & Ht & _).
  exists w'. split; [exact Hw'|].
  split; [rewrite Hh; vm_compute; reflexivity|].
  split; [rewrite Hc; vm_compute; reflexivity|].
  split; [exact Ha|exact Ht].
Defined.

(** C7. [onStreamReset] follows the reset table: the reducer adds one, at
    the host and at the cluster, to the counter [reset_counter reason]
    names and to no other, that is the failure-eject counter for
    [StreamConnectionTermination] and [StreamConnectionFailed], the
    local-reset counter for [StreamLocalReset] and the remote-reset counter
    for [StreamRemoteReset]; the two connection reasons set
    [closeWithActiveReq] of the client (which must exist for that), every
    other reason leaves all client objects as they were. *)
Theorem C7_onStreamReset_table cli reason w o :
  (reason = StreamConnectionTermination ∨ reason = StreamConnectionFailed →
   heap w !! cli = Some o) →
  ∃ w',
    onStreamReset cli reason w = Some ((), w') ∧
    (∀ k, Count k (HostStats w') = Count k (HostStats w) +
          if decide (reset_counter reason = Some k) then 1 else 0) ∧
    (∀ k, Count k (ClusterStats w') = Count k (ClusterStats w) +
          if decide (reset_counter reason = Some k) then 1 else 0) ∧
    heap w' =
      (if decide (reason = StreamConnectionTermination ∨
                  reason = StreamConnectionFailed)
       then <[cli := set_closeWithActiveReq true o]> (heap w)
       else heap w) ∧
    pool w' = pool w ∧
    Requests w' = Requests w ∧
    trace w' = trace w.
Proof.
  intros Ho.
  destruct reason.
  1,2: eexists; split; [by apply (onStreamReset_eject cli _ w o); auto|].
  3: eexists; split; [apply onStreamReset_local|].
  4: eexists; split; [apply onStreamReset_remote|].
  5: eexists; split; [apply onStreamReset_other|].
  all: cbn [HostStats ClusterStats Requests trace pool heap
            set_heap set_ClusterStats set_HostStats reset_counter].
  all: repeat split; try done.
  all: intros k; rewrite ?Count_Inc; destruct k; simpl; lia.
Qed.

Lemma C7_witness :
  ∃ w', onStreamReset 0%nat StreamConnectionFailed connected_pool = Some ((), w') ∧
        Count UpstreamRequestFailureEject (HostStats w') = 1 ∧
        (closeWithActiveReq <$> heap w' !! 0%nat) = Some true.
Proof.
  destruct (C7_onStreamReset_table 0%nat StreamConnectionFailed connected_pool
              (dialed_client fresh_pool) (λ _, eq_refl))
    as (w' & Hw' & Hh & _ & Hp & _).
  exists w'. split; [exact Hw'|].
  split; [rewrite Hh; vm_compute; reflexivity|].
  rewrite Hp. vm_compute. reflexivity.
Defined.

(** C10. A connection event that is no close event, not [ConnectTimeout]
    and not [ConnectFailed] (such as [Connected] or [OnReadTimeout]) makes
    [onConnectionEvent] return with the state it found: field, flag,
    counters and the calls made to the stream client are untouched. *)
Theorem C10_onConnectionEvent_ignores_other_events IsClose cli event w :
  IsClose event = false →
  event ≠ ConnectTimeout →
  event ≠ ConnectFailed →
  ∃ w',
    onConnectionEvent IsClose cli event w = Some ((), w') ∧
    w' = w ∧
    activeClient (pool w') = activeClient (pool w) ∧
    heap w' = heap w ∧
    HostStats w' = HostStats w ∧
    ClusterStats w' = ClusterStats w ∧
    trace w' = trace w.
Proof.
  intros Hc Ht Hf. exists w.
  split; [by apply onConnectionEvent_other|done].
Qed.

Lemma C10_witness :
  IsClose_of_spec OnReadTimeout = false ∧
  onConnectionEvent IsClose_of_spec 0%nat OnReadTimeout connected_pool =
    Some ((), connected_pool).
Proof.
  split; [reflexivity|].
  destruct (C10_onConnectionEvent_ignores_other_events IsClose_of_spec 0%nat
              OnReadTimeout connected_pool eq_refl)
    as (w' & Hw' & -> & _); [done|done|exact Hw'].
Defined.

(** ** Construction *)

(** C8. When the connect fails, [newActiveClient] returns nil after the
    calls that set the connection up and nothing more: it neither reads nor
    writes [p.activeClient] and does not take the mutex, no counter of the
    host or the cluster moves, and no keep-alive probe is made or started.
    [init] then stores the nil it got, which is its one access to the
    field, so a pool whose field was nil is still without client, with the
    same counters. *)
Theorem C8_failed_connect_leaves_pool_alone ctx w e :
  connect_err w = Some e →
  (∃ w',
     newActiveClient ctx w = Some (None, w') ∧
     pool w' = pool w ∧
     accesses w' = accesses w ∧
     HostStats w' = HostStats w ∧
     ClusterStats w' = ClusterStats w ∧
     Requests w' = Requests w ∧
     trace w' = trace w ++ dial_calls ctx w ∧
     Forall (λ c, ∀ cl proto i r k,
                    c ≠ NewSofaRPCKeepAlive cl proto i r k ∧
                    c ≠ Go_KeepAlive_Start k)
            (dial_calls ctx w)) ∧
  (activeClient (pool w) = None →
   ∃ w',
     init w = Some ((), w') ∧
     activeClient (pool w') = None ∧
     accesses w' = accesses w ++ [WriteField None] ∧
     HostStats w' = HostStats w ∧
     ClusterStats w' = ClusterStats w ∧
     trace w' = trace w ++ dial_calls Background w).
Proof.
  intros He. split.
  - eexists. split; [by apply (newActiveClient_fail ctx w e)|].
    cbn [HostStats ClusterStats Requests trace pool heap accesses
         set_trace set_next_handle set_heap].
    repeat split; try done.
    unfold dial_calls. repeat constructor; done.
  - intros Ha. eexists. split; [by apply (init_fail w e)|].
    cbn [HostStats ClusterStats Requests trace pool heap accesses activeClient
         set_pool set_accesses set_trace set_next_handle set_heap
         set_activeClient].
    repeat split; done.
Qed.

Lemma C8_witness :
  connect_err refused_pool = Some "connection refused" ∧
  ∃ w', init refused_pool = Some ((), w') ∧
        activeClient (pool w') = None ∧
        HostStats w' = no_counts ∧
        length (trace w') = 5%nat.
Proof.
  split; [reflexivity|].
  destruct (C8_failed_connect_leaves_pool_alone Background refused_pool
              "connection refused" eq_refl)
    as (_ & Hinit).
  destruct (Hinit eq_refl) as (w' & Hw' & Ha & _ & Hh & _ & Ht).
  exists w'. split; [exact Hw'|]. split; [exact Ha|]. split; [exact Hh|].
  rewrite Ht. reflexivity.
Defined.

(** ** Discipline of the mutex *)

Lemma lock_discipline_NewStream ctx d l : lock_discipline (NewStream ctx d l).
Proof.
  intros w w' Hm. destruct_world w. subst.
  unfold_ops. simpl. intros H. split_cases.
  all: exists [Acquire; ReadField; Release]; simpl; by rewrite <- !app_assoc.
Qed.

Lemma lock_discipline_Active : lock_discipline Active.
Proof.
  intros w w' Hm. unfold exec. rewrite Active_spec by done. intros [= <-].
  by exists [Acquire; ReadField; Release].
Qed.

Lemma lock_discipline_newActiveClient ctx : lock_discipline (newActiveClient ctx).
Proof.
  intros w w' Hm. unfold exec.
  destruct (connect_err w) as [e|] eqn:He.
  - rewrite (newActiveClient_fail ctx w e He). intros [= <-].
    exists []. split; [|done]. simpl. by rewrite app_nil_r.
  - destruct (as_byte (ctx_Value ctx ContextSubProtocol)) as [proto|] eqn:Hb.
    + rewrite (newActiveClient_keepAlive ctx w proto He Hm Hb). intros [= <-].
      by eexists.
    + rewrite (newActiveClient_plain ctx w He Hm Hb). intros [= <-].
      by eexists.
Qed.

Lemma unguarded_run {A : Type} (m : M A) w w' log :
  mux (pool w) = false →
  exec m w = Some w' →
  accesses w' = accesses w ++ log →
  guarded false log = false →
  ¬ lock_discipline m.
Proof.
  intros Hm Hw Hlog Hg Hd.
  destruct (Hd w w' Hm Hw) as (log' & Hlog' & Hg').
  rewrite Hlog in Hlog'. apply app_inv_head in Hlog'. congruence.
Qed.

(** C9. The access log of each method, against the claim that every read
    and write of [p.activeClient] happens under [p.mux]: [NewStream],
    [Active] and the publication at the end of [newActiveClient] take the
    mutex around their access, but [Close] reads the field twice,
    [onConnectionEvent] clears it and [init] stores the result of the
    construction without taking the mutex. *)
Theorem C9_field_accessed_outside_mutex :
  (∀ ctx d l, lock_discipline (NewStream ctx d l)) ∧
  lock_discipline Active ∧
  (∀ ctx, lock_discipline (newActiveClient ctx)) ∧
  ¬ lock_discipline Close ∧
  ¬ lock_discipline (onConnectionEvent IsClose_of_spec 0%nat LocalClose) ∧
  ¬ lock_discipline init ∧
  exec Close connected_pool =
    Some (set_trace (trace connected_pool ++ [Client_Close 1%nat])
            (set_accesses (accesses connected_pool ++ [ReadField; ReadField])
               connected_pool)) ∧
  exec (onConnectionEvent IsClose_of_spec 0%nat LocalClose) connected_pool =
    Some (set_pool (set_activeClient None (pool connected_pool))
            (set_accesses (accesses connected_pool ++ [WriteField None])
               connected_pool)) ∧
  accesses connected_pool =
    [Acquire; WriteField (Some 0%nat); Release; WriteField (Some 0%nat)].
Proof.
  split; [apply lock_discipline_NewStream|].
  split; [apply lock_discipline_Active|].
  split; [apply lock_discipline_newActiveClient|].
  assert (HClose : exec Close connected_pool =
    Some (set_trace (trace connected_pool ++ [Client_Close 1%nat])
            (set_accesses (accesses connected_pool ++ [ReadField; ReadField])
               connected_pool))) by (vm_compute; reflexivity).
  assert (HEvent :
    exec (onConnectionEvent IsClose_of_spec 0%nat LocalClose) connected_pool =
    Some (set_pool (set_activeClient None (pool connected_pool))
            (set_accesses (accesses connected_pool ++ [WriteField None])
               connected_pool))) by (vm_compute; reflexivity).
  split; [|split; [|split]].
  - eapply (unguarded_run Close connected_pool _ [ReadField; ReadField]);
      [reflexivity|exact HClose|reflexivity|reflexivity].
  - eapply (unguarded_run _ connected_pool _ [WriteField None]);
      [reflexivity|exact HEvent|reflexivity|reflexivity].
  - eapply (unguarded_run init fresh_pool _
              [Acquire; WriteField (Some 0%nat); Release; WriteField (Some 0%nat)]);
      [reflexivity|vm_compute; reflexivity|reflexivity|reflexivity].
  - split; [exact HClose|]. split; [exact HEvent|reflexivity].
Qed.

(** * Further properties of the pool *)

#[local] Arguments Count : simpl never.

(** ** Invariants by induction on the run *)

Lemma count_app p t1 t2 : count p (t1 ++ t2) = (count p t1 + count p t2)%nat.
Proof. induction t1 as [|c t1 IH]; simpl; [done|]. rewrite IH. lia. Qed.

Lemma exec_steps_cons IsClose l ls w w' :
  exec (steps IsClose (l :: ls)) w = Some w' →
  ∃ w1, exec (step IsClose l) w = Some w1 ∧ exec (steps IsClose ls) w1 = Some w'.
Proof.
  simpl. unfold exec, mbind, M_bind.
  destruct (step IsClose l w) as [[[] w1]|]; [|done]. eauto.
Qed.

Lemma steps_invariant IsClose (P : World → Prop) :
  (∀ l w w', wf w → P w → exec (step IsClose l) w = Some w' → P w') →
  ∀ ls w w', wf w → P w → exec (steps IsClose ls) w = Some w' → P w'.
Proof.
  intros Hstep ls. induction ls as [|l ls IH]; intros w w' Hwf HP.
  - cbv [exec steps mret M_ret]. by intros [= <-].
  - intros (w1 & H1 & Hls)%exec_steps_cons.
    apply (IH w1); [|by eapply Hstep|done].
    apply (steps_wf IsClose [l] w w1 Hwf).
    simpl. unfold exec, mbind, M_bind. revert H1. unfold exec.
    by destruct (step IsClose l w) as [[[] ?]|]; [intros [= ->]|].
Qed.

Lemma spawned_init_cases w w' :
  wf w →
  exec spawned_init w = Some w' →
  pending_init w = true ∧ heap w = [] ∧
  ((∃ e, connect_err w = Some e ∧
         init (set_pending_init false w) = Some ((), w') ∧
         w' = set_pool (set_activeClient None (pool w))
                (set_accesses (accesses w ++ [WriteField None])
                (set_trace (trace w ++ dial_calls Background w)
                (set_next_handle (S (S (next_handle w)))
                (set_heap [dialed_client w] (set_pending_init false w)))))) ∨
   (connect_err w = None ∧
    w' = set_pool (set_activeClient (Some 0%nat) (pool w))
           (set_accesses
              (accesses w ++ [Acquire; WriteField (Some 0%nat); Release;
                              WriteField (Some 0%nat)])
           (set_trace
              (trace w ++ dial_calls Background w ++
               [Client_SetConnectionStats (S (next_handle w))])
           (set_ClusterStats
              (Inc UpstreamConnectionActive 1
                 (Inc UpstreamConnectionTotal 1 (ClusterStats w)))
           (set_HostStats
              (Inc UpstreamConnectionActive 1
                 (Inc UpstreamConnectionTotal 1 (HostStats w)))
           (set_next_handle (S (S (next_handle w)))
           (set_heap [dialed_client w] (set_pending_init false w))))))))).
Proof.
  intros [Hm _ _ Hp].
  unfold exec, spawned_init.
  erewrite bind_step; [|reflexivity]. cbv beta.
  destruct (pending_init w) eqn:Hpi; [|done].
  specialize (Hp eq_refl). apply nil_length_inv in Hp.
  erewrite bind_step; [|reflexivity]. cbv beta.
  split; [done|]. split; [done|].
  destruct (connect_err w) as [e|] eqn:He.
  - left. exists e. split; [done|].
    revert H. rewrite (init_fail _ e); [|by destruct_world w].
    intros [= <-]. split; [done|].
    destruct_world w. by subst.
  - right. split; [done|].
    revert H. rewrite init_ok; [|by destruct_world w|by destruct_world w].
    intros [= <-]. destruct_world w. by subst.
Qed.

(** ** The ledger is kept *)

Lemma AddUint64_succ n :
  AddUint64 (N.of_nat n mod 2 ^ 64) 1 = (N.of_nat (n + 1) mod 2 ^ 64)%N.
Proof.
  unfold AddUint64. rewrite N.Div0.add_mod_idemp_l.
  f_equal. lia.
Qed.

Lemma ledger_NewConnPool h hs cs rq cerr :
  ledger hs cs rq cerr (NewConnPool h hs cs rq cerr).
Proof.
  split; unfold constructed; simpl; try done; intros; try lia.
Qed.

Ltac lg_z :=
  intros; unfold constructed in *; simpl in *;
  rewrite ?count_app, ?Count_Inc, ?Count_Dec; simpl;
  repeat match goal with
         | H : ∀ a, Some ?p = Some a → _ |- _ => specialize (H p eq_refl)
         end;
  try done; try lia; try (intuition lia); eauto;
  try (intuition (simplify_eq; auto)).

Ltac lg_mirror H :=
  let k := fresh "k" in
  intros k; specialize (H k); simpl; rewrite ?Count_Inc, ?Count_Dec;
  repeat case_decide; lia.

Ltac lg_streams Hst Hhe :=
  let a := fresh "a" in let o := fresh "o" in let Hlk := fresh "Hlk" in
  intros a o Hlk; simpl in *; rewrite ?count_app; simpl;
  rewrite ?Nat.add_0_r;
  first
    [ by eapply Hst
    | match type of Hlk with
      | <[?p := _]> _ !! _ = _ =>
        assert (a = p) as ->
          by (apply lookup_lt_Some in Hlk; rewrite length_insert in Hlk;
              repeat match goal with
                     | H : _ !! _ = Some _ |- _ => apply lookup_lt_Some in H
                     end; lia);
        rewrite list_lookup_insert_eq in Hlk
          by (repeat match goal with
                     | H : _ !! _ = Some _ |- _ => apply lookup_lt_Some in H
                     end; lia);
        simplify_eq; simpl;
        first [ by eapply Hst
              | erewrite Hst by eassumption; apply AddUint64_succ ]
      end ].

Section Ledger.

Variable IsClose : ConnectionEvent → bool.
Variables (hs cs : Stats) (rq : Resource) (cerr : option string).

Lemma step_ledger l w w' :
  wf w →
  ledger hs cs rq cerr w →
  exec (step IsClose l) w = Some w' →
  ledger hs cs rq cerr w'.
Proof.
  intros Hwf Hl.
  destruct (decide (l = run_init)) as [->|Hne].
  - intros H.
    destruct (spawned_init_cases w w' Hwf H)
      as (Hpi & Hh & [(e & He & _ & ->)|(He & ->)]).
    all: destruct Hl as [Hmi Hto Hac Hin Hce Hre Hcr Hct Hca Hhe Hins Hqu Hst].
    all: destruct_world w; subst; unfold constructed, dial_calls in *; simpl in *.
    all: split;
      [ lg_mirror Hmi | lg_z | lg_z | lg_z | lg_z | lg_z | lg_z | lg_z | lg_z
      | done | lg_z | lg_z | ].
    all: intros [|a] o Hlk; simpl in Hlk; simplify_eq; simpl.
    all: rewrite count_app; simpl; by rewrite Hqu.
  - destruct Hl as [Hmi Hto Hac Hin Hce Hre Hcr Hct Hca Hhe Hins Hqu Hst].
    destruct Hwf as [Hm Hc Ha Hp].
    destruct_world w. subst. unfold constructed in *. simpl in *.
    destruct l; try done; unfold_ops; simpl; intros H; split_cases.
    all: split;
      [ lg_mirror Hmi | lg_z | lg_z | lg_z | lg_z | lg_z | lg_z | lg_z | lg_z
      | simpl; rewrite ?length_insert; done
      | lg_z | lg_z | lg_streams Hst Hhe ].
Qed.

End Ledger.

Lemma run_ledger IsClose h hs cs rq cerr ls w :
  exec (steps IsClose ls) (NewConnPool h hs cs rq cerr) = Some w →
  wf w ∧ ledger hs cs rq cerr w.
Proof.
  intros H. split.
  - eapply steps_wf; [apply wf_NewConnPool|exact H].
  - eapply (steps_invariant IsClose (ledger hs cs rq cerr));
      [|apply wf_NewConnPool|apply ledger_NewConnPool|exact H].
    intros l v v'. apply step_ledger.
Qed.

(** ** Counters and budget along a run *)

(** X1. Every method moves the counters of the host and of the cluster
    together: after any run of a pool, each of the twelve counters has
    grown at the host by what it has grown at the cluster. *)
Theorem X1_counters_mirrored IsClose h hs cs rq cerr ls w :
  exec (steps IsClose ls) (NewConnPool h hs cs rq cerr) = Some w →
  ∀ k, Count k (HostStats w) - Count k hs = Count k (ClusterStats w) - Count k cs.
Proof. intros H. apply (run_ledger _ _ _ _ _ _ _ _ H). Qed.

(** X2. After any run, [UpstreamRequestTotal] has grown by the number of
    [OnReady] calls the pool has made, the budget was raised as often as
    [OnReady] was called, and [totalStream] of a client object is that
    number as a [uint64]. *)
Theorem X2_streams_counted IsClose h hs cs rq cerr ls w :
  exec (steps IsClose ls) (NewConnPool h hs cs rq cerr) = Some w →
  Count UpstreamRequestTotal (HostStats w) =
    Count UpstreamRequestTotal hs + Z.of_nat (count is_OnReady (trace w)) ∧
  Count UpstreamRequestTotal (ClusterStats w) =
    Count UpstreamRequestTotal cs + Z.of_nat (count is_OnReady (trace w)) ∧
  count is_Increase (trace w) = count is_OnReady (trace w) ∧
  ∀ a o, heap w !! a = Some o →
    totalStream o = (N.of_nat (count is_OnReady (trace w)) mod 2 ^ 64)%N.
Proof.
  intros H. destruct (run_ledger _ _ _ _ _ _ _ _ H) as [_ L].
  split; [apply L|]. split; [|split; apply L].
  pose proof (lg_mirror _ _ _ _ _ L UpstreamRequestTotal).
  pose proof (lg_total _ _ _ _ _ L). lia.
Qed.

(** X3. After any run, [UpstreamRequestActive] of the host and of the
    cluster and the number of requests in use of the budget have all moved
    by the same amount, the number of [Increase] calls less the number of
    [Decrease] calls; the ceiling of the budget is the one the run started
    with. *)
Theorem X3_active_requests_follow_budget IsClose h hs cs rq cerr ls w :
  exec (steps IsClose ls) (NewConnPool h hs cs rq cerr) = Some w →
  Count UpstreamRequestActive (HostStats w) - Count UpstreamRequestActive hs =
    Z.of_nat (count is_Increase (trace w)) - Z.of_nat (count is_Decrease (trace w)) ∧
  Count UpstreamRequestActive (ClusterStats w) - Count UpstreamRequestActive cs =
    res_inuse (Requests w) - res_inuse rq ∧
  res_inuse (Requests w) - res_inuse rq =
    Z.of_nat (count is_Increase (trace w)) - Z.of_nat (count is_Decrease (trace w)) ∧
  res_ceiling (Requests w) = res_ceiling rq.
Proof.
  intros H. destruct (run_ledger _ _ _ _ _ _ _ _ H) as [_ L].
  pose proof (lg_mirror _ _ _ _ _ L UpstreamRequestActive).
  pose proof (lg_active _ _ _ _ _ L). pose proof (lg_inuse _ _ _ _ _ L).
  pose proof (lg_ceiling _ _ _ _ _ L). repeat split; lia.
Qed.

(** X4. The connection counters record the construction and nothing else:
    after any run, [UpstreamConnectionTotal] and [UpstreamConnectionActive]
    of host and cluster stand one above their start if the construction
    attempt has run and connected, and at their start otherwise.  No method
    takes [UpstreamConnectionActive] back, so it stays raised when the
    pool has lost its client. *)
Theorem X4_connection_counters IsClose h hs cs rq cerr ls w :
  exec (steps IsClose ls) (NewConnPool h hs cs rq cerr) = Some w →
  connect_err w = cerr ∧
  Count UpstreamConnectionTotal (HostStats w) =
    Count UpstreamConnectionTotal hs + constructed w ∧
  Count UpstreamConnectionActive (HostStats w) =
    Count UpstreamConnectionActive hs + constructed w ∧
  Count UpstreamConnectionTotal (ClusterStats w) =
    Count UpstreamConnectionTotal cs + constructed w ∧
  Count UpstreamConnectionActive (ClusterStats w) =
    Count UpstreamConnectionActive cs + constructed w.
Proof.
  intros H. destruct (run_ledger _ _ _ _ _ _ _ _ H) as [_ L].
  pose proof (lg_mirror _ _ _ _ _ L UpstreamConnectionTotal).
  pose proof (lg_mirror _ _ _ _ _ L UpstreamConnectionActive).
  pose proof (lg_conn_total _ _ _ _ _ L). pose proof (lg_conn_active _ _ _ _ _ L).
  split; [apply L|]. repeat split; lia.
Qed.

(** X5. A pool has at most one client object: none while the construction
    attempt is pending and one once it has run, whether it connected or
    not.  A non-nil [activeClient] is that object, and the pool has one
    only if the attempt connected. *)
Theorem X5_at_most_one_client IsClose h hs cs rq cerr ls w :
  exec (steps IsClose ls) (NewConnPool h hs cs rq cerr) = Some w →
  length (heap w) = (if pending_init w then 0%nat else 1%nat) ∧
  ∀ a, activeClient (pool w) = Some a →
       a = 0%nat ∧ is_Some (heap w !! a) ∧
       pending_init w = false ∧ connect_err w = None.
Proof.
  intros H. destruct (run_ledger _ _ _ _ _ _ _ _ H) as [Hwf L].
  split; [apply L|]. intros a Ha.
  destruct (lg_installed _ _ _ _ _ L a Ha) as [-> Hc].
  split; [done|]. split.
  - apply lookup_lt_is_Some_2. by apply Hwf.
  - unfold constructed in Hc.
    destruct (pending_init w); [lia|]. by destruct (connect_err w).
Qed.

(** ** What a run never undoes *)

Section Monotone.

Variable IsClose : ConnectionEvent → bool.

Lemma step_monotone l w w' :
  wf w →
  exec (step IsClose l) w = Some w' →
  ∀ k, k ≠ UpstreamRequestActive →
    Count k (HostStats w) ≤ Count k (HostStats w') ∧
    Count k (ClusterStats w) ≤ Count k (ClusterStats w').
Proof.
  intros Hwf.
  destruct (decide (l = run_init)) as [->|Hne].
  - intros H k Hk.
    destruct (spawned_init_cases w w' Hwf H)
      as (Hpi & Hh & [(e & He & _ & ->)|(He & ->)]).
    all: simpl; rewrite ?Count_Inc; repeat case_decide; lia.
  - destruct Hwf as [Hm Hc Ha Hp].
    destruct_world w. subst.
    destruct l; try done; unfold_ops; simpl; intros H; split_cases.
    all: intros k Hk; simpl; rewrite ?Count_Inc, ?Count_Dec.
    all: repeat case_decide; simplify_eq; lia.
Qed.

Lemma step_objects l w w' :
  wf w →
  exec (step IsClose l) w = Some w' →
  ∀ a o, heap w !! a = Some o →
    ∃ o', heap w' !! a = Some o' ∧
          client o' = client o ∧ ac_host o' = ac_host o ∧
          keepAlive o' = keepAlive o ∧
          (closeWithActiveReq o = true → closeWithActiveReq o' = true).
Proof.
  intros Hwf.
  destruct (decide (l = run_init)) as [->|Hne].
  - intros H a o Ho.
    destruct (spawned_init_cases w w' Hwf H) as (_ & Hh & _).
    by rewrite Hh in Ho.
  - destruct Hwf as [Hm Hc Ha Hp].
    destruct_world w. subst.
    destruct l; try done; unfold_ops; simpl; intros H; split_cases.
    all: intros a' o' Ho'; simpl.
    all: try (by exists o').
    all: match goal with
         | |- context [<[?p := ?x]> _ !! ?q] =>
           destruct (decide (q = p)) as [->|];
             [ rewrite list_lookup_insert_eq by (by eapply lookup_lt_Some);
               repeat match goal with
                 | H : <[?i := _]> _ !! ?i = Some _ |- _ =>
                   rewrite list_lookup_insert_eq in H
                     by (by eapply lookup_lt_Some)
                 | H1 : ?x = Some _, H2 : ?x = Some _ |- _ => rewrite H1 in H2
                 end;
               eexists; split; [reflexivity|]; simpl;
               unfold lookup in *; simplify_eq;
               repeat split; intros; congruence
             | rewrite list_lookup_insert_ne by done;
               eexists; split; [eassumption|]; auto ]
         end.
Qed.

End Monotone.

(** X6. No method takes anything back from a counter other than
    [UpstreamRequestActive]: along any run from a state of the machine,
    the other eleven counters of host and cluster never go down. *)
Theorem X6_counters_monotone IsClose w ls w' :
  reachable IsClose w →
  exec (steps IsClose ls) w = Some w' →
  ∀ k, k ≠ UpstreamRequestActive →
    Count k (HostStats w) ≤ Count k (HostStats w') ∧
    Count k (ClusterStats w) ≤ Count k (ClusterStats w').
Proof.
  intros Hr H. apply reachable_wf in Hr.
  apply (steps_invariant IsClose
           (λ v, ∀ k, k ≠ UpstreamRequestActive →
                   Count k (HostStats w) ≤ Count k (HostStats v) ∧
                   Count k (ClusterStats w) ≤ Count k (ClusterStats v))
           ) with (ls := ls) (w := w); [|done| |done].
  - intros l v v' Hv IH Hs k Hk.
    destruct (step_monotone IsClose l v v' Hv Hs k Hk).
    destruct (IH k Hk). lia.
  - intros k _. lia.
Qed.

(** X7. A client object keeps what the construction gave it: along any
    run from a state of the machine its stream client, connection data and
    keep-alive listener stay the same, and [closeWithActiveReq], once set,
    is never cleared. *)
Theorem X7_client_objects_stable IsClose w ls w' a o :
  reachable IsClose w →
  exec (steps IsClose ls) w = Some w' →
  heap w !! a = Some o →
  ∃ o', heap w' !! a = Some o' ∧
        client o' = client o ∧ ac_host o' = ac_host o ∧
        keepAlive o' = keepAlive o ∧
        (closeWithActiveReq o = true → closeWithActiveReq o' = true).
Proof.
  intros Hr H Ho. apply reachable_wf in Hr.
  apply (steps_invariant IsClose
           (λ v, ∃ o', heap v !! a = Some o' ∧
                   client o' = client o ∧ ac_host o' = ac_host o ∧
                   keepAlive o' = keepAlive o ∧
                   (closeWithActiveReq o = true → closeWithActiveReq o' = true))
           ) with (ls := ls) (w := w); [|done| |done].
  - intros l v v' Hv (o1 & Ho1 & Hc1 & Hh1 & Hk1 & Hf1) Hs.
    destruct (step_objects IsClose l v v' Hv Hs a o1 Ho1)
      as (o2 & Ho2 & Hc2 & Hh2 & Hk2 & Hf2).
    exists o2. split; [done|]. repeat split; try congruence. auto.
  - by exists o.
Qed.

(** ** The public methods on a state of the machine *)

Lemma Close_nil w :
  activeClient (pool w) = None →
  Close w = Some ((), set_accesses (accesses w ++ [ReadField]) w).
Proof.
  destruct_world w. intros ->. unfold Close.
  repeat mstep. mdone.
Qed.

Lemma Close_active w a o c :
  activeClient (pool w) = Some a →
  heap w !! a = Some o →
  client o = Some c →
  Close w =
    Some ((),
      set_trace (trace w ++ [Client_Close c])
        (set_accesses (accesses w ++ [ReadField; ReadField]) w)).
Proof.
  destruct_world w. intros -> Ho Hc. unfold Close.
  mstep. cbv iota. do 2 mstep.
  erewrite bind_step; [|prim; rewrite Ho; reflexivity]. cbv beta.
  rewrite Hc. repeat mstep. mdone.
Qed.

Lemma installed_client w a :
  wf w →
  activeClient (pool w) = Some a →
  ∃ o c, heap w !! a = Some o ∧ client o = Some c.
Proof.
  intros [_ Hcl Hact _] Ha.
  destruct (lookup_lt_is_Some_2 _ _ (Hact a Ha)) as [o Ho].
  destruct (Forall_lookup_1 _ _ _ _ Hcl Ho) as [c Hc]. eauto.
Qed.

Lemma NewStream_outcome ctx d l w :
  wf w →
  ∃ w' t,
    NewStream ctx d l w = Some ((), w') ∧
    trace w' = trace w ++ t ∧
    ((activeClient (pool w) = None ∧
      t = [PoolEventListener_OnFailure l ConnectionFailure None]) ∨
     (is_Some (activeClient (pool w)) ∧ CanCreate (Requests w) = false ∧
      t = [Requests_CanCreate false; PoolEventListener_OnFailure l Overflow None]) ∨
     (is_Some (activeClient (pool w)) ∧ CanCreate (Requests w) = true ∧
      ∃ c a, t = [Requests_CanCreate true; Requests_Increase;
                  Client_NewStream c ctx d (next_handle w);
                  Stream_AddEventListener (next_handle w) a;
                  PoolEventListener_OnReady l (next_handle w) (host (pool w))])).
Proof.
  intros Hwf. assert (Hm := wf_mux w Hwf).
  destruct (activeClient (pool w)) as [a|] eqn:Ha.
  - destruct (installed_client w a Hwf Ha) as (o & c & Ho & Hc).
    destruct (CanCreate (Requests w)) eqn:Hcc.
    + eexists _, _. split; [by apply (NewStream_admitted ctx d l w a o c)|].
      split; [reflexivity|]. right. right. eauto 10.
    + eexists _, _. split; [by apply (NewStream_overflow ctx d l w a)|].
      split; [reflexivity|]. right. left. eauto.
  - eexists _, _. split; [by apply NewStream_nil|].
    split; [reflexivity|]. by left.
Qed.

(** X9. In a state of the machine every [NewStream] makes exactly one
    call to a pool event listener, and that call goes to its own listener:
    [OnFailure(ConnectionFailure, nil)] exactly when the pool has no client
    (when [Active()] answers false), [OnReady] exactly when it has one and
    the budget admits the request, [OnFailure(Overflow, nil)] otherwise. *)
Theorem X9_one_callback_per_NewStream IsClose ctx d l w :
  reachable IsClose w →
  ∃ w' t,
    NewStream ctx d l w = Some ((), w') ∧
    trace w' = trace w ++ t ∧
    count is_callback t = 1%nat ∧
    count (callback_to l) t = 1%nat ∧
    (t = [PoolEventListener_OnFailure l ConnectionFailure None] ↔
     Active w =
       Some (false, set_accesses (accesses w ++ [Acquire; ReadField; Release]) w)) ∧
    (count is_OnReady t = 1%nat ↔
     is_Some (activeClient (pool w)) ∧ CanCreate (Requests w) = true) ∧
    (t = [Requests_CanCreate false; PoolEventListener_OnFailure l Overflow None] ↔
     is_Some (activeClient (pool w)) ∧ CanCreate (Requests w) = false).
Proof.
  intros Hr. apply reachable_wf in Hr as Hwf. assert (Hm := wf_mux w Hwf).
  destruct (NewStream_outcome ctx d l w Hwf)
    as (w' & t & Hw' & Ht & [(Ha & ->)|[(Ha & Hc & ->)|(Ha & Hc & c & a & ->)]]).
  all: exists w'; eexists; split; [exact Hw'|]; split; [exact Ht|].
  all: rewrite Active_spec by done.
  all: simpl; rewrite ?bool_decide_eq_true_2 by done.
  all: split; [done|]; split; [done|].
  - rewrite Ha. split; [|split].
    + split; [reflexivity|done].
    + split; [done|]. by intros [[? ?] _].
    + split; [done|]. by intros [[? ?] _].
  - destruct Ha as [a Ha]. rewrite Ha. split; [|split].
    + split; [done|]. by intros [=].
    + split; [done|]. intros [_ ?]. congruence.
    + split; [|done]. intros _. by split; [eexists|].
  - destruct Ha as [a' Ha]. rewrite Ha. split; [|split].
    + split; [done|]. by intros [=].
    + split; [|done]. intros _. by split; [eexists|].
    + split; [done|]. intros [_ ?]. congruence.
Qed.

(** ** Construction that connects *)

(** X10. When the connect succeeds, [init] installs the client object it
    has built, adds one to [UpstreamConnectionTotal] and
    [UpstreamConnectionActive] of host and cluster and to no other counter,
    hands the byte counters to the stream client and leaves the budget
    alone; [Active()] answers true afterwards.  [init] passes
    [context.Background()], which carries no sub-protocol, so the
    keep-alive block is not run: the object has no keep-alive listener and
    no probe is made or started. *)
Theorem X10_init_installs_client w :
  connect_err w = None →
  mux (pool w) = false →
  ∃ w',
    init w = Some ((), w') ∧
    activeClient (pool w') = Some (length (heap w)) ∧
    heap w' = heap w ++ [dialed_client w] ∧
    keepAlive (dialed_client w) = None ∧
    (∀ k, Count k (HostStats w') = Count k (HostStats w) +
          if decide (k = UpstreamConnectionTotal ∨ k = UpstreamConnectionActive)
          then 1 else 0) ∧
    (∀ k, Count k (ClusterStats w') = Count k (ClusterStats w) +
          if decide (k = UpstreamConnectionTotal ∨ k = UpstreamConnectionActive)
          then 1 else 0) ∧
    Requests w' = Requests w ∧
    trace w' = trace w ++ dial_calls Background w ++
               [Client_SetConnectionStats (S (next_handle w))] ∧
    keepAlive_calls Background w = [] ∧
    ∃ v, Active w' = Some (true, v).
Proof.
  intros He Hm. eexists. split; [by apply init_ok|].
  cbn [HostStats ClusterStats Requests trace pool heap activeClient
       set_pool set_accesses set_trace set_ClusterStats set_HostStats
       set_next_handle set_heap set_activeClient].
  repeat split; try done.
  - intros k. rewrite !Count_Inc. destruct k; simpl; lia.
  - intros k. rewrite !Count_Inc. destruct k; simpl; lia.
  - rewrite Active_spec by (by simpl). simpl. eauto.
Qed.

(** X11. A construction that connects runs the keep-alive block exactly
    when its context carries a byte under [ContextSubProtocol]: then a
    probe with an interval of one second and six retries is made for the
    stream client, made a listener of the connection, started, and kept in
    the client object; otherwise none of this happens.  A value of another
    type attached under the key hides a byte attached further up, so the
    assertion [protocolValue.(byte)] fails. *)
Theorem X11_keepAlive_needs_subprotocol ctx w :
  connect_err w = None →
  mux (pool w) = false →
  ∃ w',
    newActiveClient ctx w = Some (Some (length (heap w)), w') ∧
    activeClient (pool w') = Some (length (heap w)) ∧
    trace w' = trace w ++ dial_calls ctx w ++ keepAlive_calls ctx w ++
               [Client_SetConnectionStats (S (next_handle w))] ∧
    (keepAlive <$> heap w' !! length (heap w)) =
      Some ((λ _, mkKeepAliveListener (S (S (next_handle w)))) <$>
            as_byte (ctx_Value ctx ContextSubProtocol)) ∧
    (keepAlive_calls ctx w =
       match as_byte (ctx_Value ctx ContextSubProtocol) with
       | Some proto =>
         [NewSofaRPCKeepAlive (S (next_handle w)) proto 1000000000 6
                              (S (S (next_handle w)));
          Connection_AddConnectionEventListener (next_handle w)
                                                (S (S (next_handle w)));
          Go_KeepAlive_Start (S (S (next_handle w)))]
       | None => []
       end) ∧
    (∀ parent p,
       as_byte (ctx_Value (WithValue parent ContextSubProtocol (VByte p))
                          ContextSubProtocol) = Some p) ∧
    (∀ parent n,
       as_byte (ctx_Value (WithValue parent ContextSubProtocol (VUint64 n))
                          ContextSubProtocol) = None) ∧
    as_byte (ctx_Value Background ContextSubProtocol) = None.
Proof.
  intros He Hm. unfold keepAlive_calls.
  destruct (as_byte (ctx_Value ctx ContextSubProtocol)) as [proto|] eqn:Hb.
  - eexists. split; [by apply (newActiveClient_keepAlive ctx w proto)|].
    cbn [trace pool heap activeClient
         set_pool set_accesses set_trace set_ClusterStats set_HostStats
         set_next_handle set_heap set_activeClient].
    rewrite lookup_alloc.
    repeat split; try done.
    all: intros; simpl; by rewrite decide_True.
  - eexists. split; [by apply (newActiveClient_plain ctx w)|].
    cbn [trace pool heap activeClient
         set_pool set_accesses set_trace set_ClusterStats set_HostStats
         set_next_handle set_heap set_activeClient].
    rewrite lookup_alloc.
    repeat split; try done.
    all: intros; simpl; by rewrite decide_True.
Qed.

(** ** [Close] *)

(** X12. [Close] only asks the stream client to close: in a state of the
    machine it returns with pool, client objects, counters and budget as
    they were, after one [Close()] on the stream client if the pool has a
    client and none if it has not.  It does not clear [activeClient], so
    the pool still answers [Active()] as before, and a second [Close]
    closes the stream client a second time. *)
Theorem X12_Close_only_closes_client IsClose w :
  reachable IsClose w →
  ∃ w' w'',
    Close w = Some ((), w') ∧
    pool w' = pool w ∧ heap w' = heap w ∧
    HostStats w' = HostStats w ∧ ClusterStats w' = ClusterStats w ∧
    Requests w' = Requests w ∧
    count is_Client_Close (trace w') =
      (count is_Client_Close (trace w) +
       match activeClient (pool w) with Some _ => 1 | None => 0 end)%nat ∧
    length (trace w') =
      (length (trace w) + match activeClient (pool w) with Some _ => 1 | None => 0 end)%nat ∧
    Close w' = Some ((), w'') ∧
    pool w'' = pool w ∧
    count is_Client_Close (trace w'') =
      (count is_Client_Close (trace w) +
       match activeClient (pool w) with Some _ => 2 | None => 0 end)%nat.
Proof.
  intros Hr. apply reachable_wf in Hr as Hwf.
  destruct (activeClient (pool w)) as [a|] eqn:Ha.
  - destruct (installed_client w a Hwf Ha) as (o & c & Ho & Hc).
    eexists _, _. split; [by apply (Close_active w a o c)|].
    cbn [HostStats ClusterStats Requests trace pool heap
         set_accesses set_trace].
    rewrite count_app, length_app. simpl.
    do 7 (split; [done|]).
    split; [by apply (Close_active _ a o c)|].
    cbn [trace pool set_accesses set_trace].
    split; [done|]. rewrite !count_app. simpl. lia.
  - eexists _, _. split; [by apply Close_nil|].
    cbn [HostStats ClusterStats Requests trace pool heap set_accesses].
    rewrite !Nat.add_0_r.
    do 7 (split; [done|]).
    split; [by apply Close_nil|]. done.
Qed.

(** ** A reset by the connection, then the close *)

(** X13. The flag that [onStreamReset] sets is the one [onConnectionEvent]
    reads: when a stream of a client is reset for
    [StreamConnectionTermination] or [StreamConnectionFailed] and the
    connection then closes locally or from remote, the two reducers
    together add one to the failure-eject counter and one to the
    close-with-active-request counter of that side, at host and cluster,
    whatever the flag was before, and leave the pool without client. *)
Theorem X13_reset_then_close_counted IsClose cli reason event w o :
  reason = StreamConnectionTermination ∨ reason = StreamConnectionFailed →
  event = LocalClose ∨ event = RemoteClose →
  IsClose event = true →
  heap w !! cli = Some o →
  ∃ w',
    exec (onStreamReset cli reason;; onConnectionEvent IsClose cli event) w
      = Some w' ∧
    (∀ k, Count k (HostStats w') = Count k (HostStats w) +
          (if decide (k = UpstreamRequestFailureEject) then 1 else 0) +
          (if decide (event_counter event true = Some k) then 1 else 0)) ∧
    (∀ k, Count k (ClusterStats w') = Count k (ClusterStats w) +
          (if decide (k = UpstreamRequestFailureEject) then 1 else 0) +
          (if decide (event_counter event true = Some k) then 1 else 0)) ∧
    activeClient (pool w') = None ∧
    (closeWithActiveReq <$> heap w' !! cli) = Some true.
Proof.
  intros Hreason Hevent Hc Ho.
  assert (Hlt : (cli < length (heap w))%nat) by (by eapply lookup_lt_Some).
  unfold exec.
  erewrite bind_step; [|by apply (onStreamReset_eject cli reason w o)].
  erewrite (onConnectionEvent_close IsClose cli event _
              (set_closeWithActiveReq true o));
    [|done|by destruct Hevent as [->| ->]|by destruct Hevent as [->| ->]
     |by apply list_lookup_insert_eq].
  eexists. split; [reflexivity|].
  cbn [HostStats ClusterStats Requests trace pool heap activeClient
       set_pool set_accesses set_heap set_ClusterStats set_HostStats
       set_activeClient set_closeWithActiveReq closeWithActiveReq].
  rewrite list_lookup_insert_eq by done.
  repeat split.
  all: intros k; rewrite Count_Inc_named, Count_Inc.
  all: destruct Hevent as [->| ->]; destruct k; simpl; lia.
Qed.

(** ** A pool whose host cannot be reached *)

(** X14. A pool whose connect fails never comes to life: after any run
    [activeClient] is nil, no [OnReady] was ever called, the budget was
    never raised, and the request and connection counters of the host
    stand where they started. *)
Theorem X14_unreachable_host_never_active IsClose h hs cs rq e ls w :
  exec (steps IsClose ls) (NewConnPool h hs cs rq (Some e)) = Some w →
  activeClient (pool w) = None ∧
  count is_OnReady (trace w) = 0%nat ∧
  count is_Increase (trace w) = 0%nat ∧
  Count UpstreamRequestTotal (HostStats w) = Count UpstreamRequestTotal hs ∧
  Count UpstreamConnectionTotal (HostStats w) = Count UpstreamConnectionTotal hs ∧
  Count UpstreamConnectionActive (HostStats w) = Count UpstreamConnectionActive hs.
Proof.
  intros H. destruct (run_ledger _ _ _ _ _ _ _ _ H) as [_ L].
  assert (Hc : constructed w = 0).
  { unfold constructed. rewrite (lg_cerr _ _ _ _ _ L). by destruct (pending_init w). }
  assert (Hq := lg_quiet _ _ _ _ _ L Hc).
  split.
  - destruct (activeClient (pool w)) as [a|] eqn:Ha; [|done].
    destruct (lg_installed _ _ _ _ _ L a Ha). lia.
  - pose proof (lg_ready _ _ _ _ _ L). pose proof (lg_total _ _ _ _ _ L).
    pose proof (lg_conn_total _ _ _ _ _ L).
    pose proof (lg_conn_active _ _ _ _ _ L).
    repeat split; lia.
Qed.

(** ** The properties on the example pool *)

Lemma busy_pool_run :
  exec (steps IsClose_of_spec busy_run) fresh_pool = Some busy_pool.
Proof. vm_compute. reflexivity. Qed.

Lemma X1_witness :
  exec (steps IsClose_of_spec busy_run) fresh_pool = Some busy_pool ∧
  ∀ k, Count k (HostStats busy_pool) - Count k no_counts =
       Count k (ClusterStats busy_pool) - Count k no_counts.
Proof.
  split; [exact busy_pool_run|].
  exact (X1_counters_mirrored IsClose_of_spec 7%nat no_counts no_counts
           (mkResource 0 2) None busy_run busy_pool busy_pool_run).
Defined.

Lemma X2_witness :
  exec (steps IsClose_of_spec busy_run) fresh_pool = Some busy_pool ∧
  Count UpstreamRequestTotal (HostStats busy_pool) = 2 ∧
  (totalStream <$> heap busy_pool !! 0%nat) = Some 2%N.
Proof.
  split; [exact busy_pool_run|].
  destruct (X2_streams_counted IsClose_of_spec 7%nat no_counts no_counts
              (mkResource 0 2) None busy_run busy_pool busy_pool_run)
    as (Ht & _ & _ & Hs).
  split; [rewrite Ht; vm_compute; reflexivity|].
  assert (Ho : heap busy_pool !! 0%nat =
               Some (set_totalStream 2
                       (set_closeWithActiveReq true (dialed_client fresh_pool))))
    by (vm_compute; reflexivity).
  rewrite Ho. simpl. f_equal.
Defined.

Lemma X3_witness :
  exec (steps IsClose_of_spec busy_run) fresh_pool = Some busy_pool ∧
  Count UpstreamRequestActive (HostStats busy_pool)
    - Count UpstreamRequestActive no_counts = 1 ∧
  res_inuse (Requests busy_pool) - res_inuse (mkResource 0 2) = 1 ∧
  res_ceiling (Requests busy_pool) = 2.
Proof.
  split; [exact busy_pool_run|].
  destruct (X3_active_requests_follow_budget IsClose_of_spec 7%nat no_counts
              no_counts (mkResource 0 2) None busy_run busy_pool busy_pool_run)
    as (Ha & _ & Hq & Hc).
  split; [rewrite Ha; vm_compute; reflexivity|].
  split; [rewrite Hq; vm_compute; reflexivity|exact Hc].
Defined.

Lemma X4_witness :
  exec (steps IsClose_of_spec busy_run) fresh_pool = Some busy_pool ∧
  activeClient (pool busy_pool) = None ∧
  Count UpstreamConnectionActive (HostStats busy_pool) = 1 ∧
  Count UpstreamConnectionActive (ClusterStats busy_pool) = 1.
Proof.
  split; [exact busy_pool_run|]. split; [vm_compute; reflexivity|].
  destruct (X4_connection_counters IsClose_of_spec 7%nat no_counts no_counts
              (mkResource 0 2) None busy_run busy_pool busy_pool_run)
    as (_ & _ & Ha & _ & Hc).
  split; [rewrite Ha|rewrite Hc]; vm_compute; reflexivity.
Defined.

Lemma X5_witness :
  exec (steps IsClose_of_spec [run_init]) fresh_pool = Some connected_pool ∧
  length (heap connected_pool) = 1%nat ∧
  activeClient (pool connected_pool) = Some 0%nat.
Proof.
  assert (Hrun : exec (steps IsClose_of_spec [run_init]) fresh_pool
                 = Some connected_pool) by (vm_compute; reflexivity).
  split; [exact Hrun|].
  destruct (X5_at_most_one_client IsClose_of_spec 7%nat no_counts no_counts
              (mkResource 0 2) None [run_init] connected_pool Hrun)
    as (Hl & Ha).
  split; [exact Hl|].
  assert (Hac : activeClient (pool connected_pool) = Some 0%nat)
    by (vm_compute; reflexivity).
  destruct (Ha 0%nat Hac) as (_ & _). exact Hac.
Defined.

Lemma X6_witness :
  reachable IsClose_of_spec connected_pool ∧
  ∃ w', exec (steps IsClose_of_spec
                [ev_OnResetStream 0%nat StreamLocalReset;
                 ev_OnEvent 0%nat RemoteClose]) connected_pool = Some w' ∧
        Count UpstreamRequestLocalReset (HostStats connected_pool)
        ≤ Count UpstreamRequestLocalReset (HostStats w').
Proof.
  split; [exact reachable_connected_pool|].
  eexists. split; [vm_compute; reflexivity|].
  refine (proj1 (X6_counters_monotone IsClose_of_spec connected_pool
                   [ev_OnResetStream 0%nat StreamLocalReset;
                    ev_OnEvent 0%nat RemoteClose] _
                   reachable_connected_pool _ UpstreamRequestLocalReset _)).
  - vm_compute. reflexivity.
  - done.
Defined.

Lemma X7_witness :
  reachable IsClose_of_spec connected_pool ∧
  ∃ o', heap busy_pool !! 0%nat = Some o' ∧
        client o' = Some 1%nat ∧ keepAlive o' = None.
Proof.
  split; [exact reachable_connected_pool|].
  destruct (X7_client_objects_stable IsClose_of_spec connected_pool
              (tail busy_run) busy_pool 0%nat (dialed_client fresh_pool)
              reachable_connected_pool)
    as (o' & Ho' & Hc & _ & Hk & _).
  - vm_compute. reflexivity.
  - vm_compute. reflexivity.
  - exists o'. split; [exact Ho'|]. split; [rewrite Hc|rewrite Hk]; reflexivity.
Defined.

Lemma X9_witness :
  reachable IsClose_of_spec full_pool ∧
  ∃ w' t, NewStream Background 1%nat 2%nat full_pool = Some ((), w') ∧
          trace w' = trace full_pool ++ t ∧
          count is_callback t = 1%nat.
Proof.
  split; [exact reachable_full_pool|].
  destruct (X9_one_callback_per_NewStream IsClose_of_spec Background 1%nat 2%nat
              full_pool reachable_full_pool)
    as (w' & t & Hw' & Ht & Hc & _).
  exists w', t. split; [exact Hw'|]. split; [exact Ht|exact Hc].
Defined.

Lemma X10_witness :
  connect_err fresh_pool = None ∧ mux (pool fresh_pool) = false ∧
  ∃ w', init fresh_pool = Some ((), w') ∧
        activeClient (pool w') = Some 0%nat ∧
        Count UpstreamConnectionActive (HostStats w') = 1.
Proof.
  split; [reflexivity|]. split; [reflexivity|].
  destruct (X10_init_installs_client fresh_pool eq_refl eq_refl)
    as (w' & Hw' & Ha & _ & _ & Hh & _).
  exists w'. split; [exact Hw'|]. split; [exact Ha|].
  rewrite Hh. vm_compute. reflexivity.
Defined.

Lemma X11_witness :
  connect_err fresh_pool = None ∧ mux (pool fresh_pool) = false ∧
  ∃ w', newActiveClient bolt_context fresh_pool = Some (Some 0%nat, w') ∧
        (keepAlive <$> heap w' !! 0%nat) = Some (Some (mkKeepAliveListener 2%nat)).
Proof.
  split; [reflexivity|]. split; [reflexivity|].
  destruct (X11_keepAlive_needs_subprotocol bolt_context fresh_pool
              eq_refl eq_refl) as (w' & Hw' & _ & _ & Hk & _).
  exists w'. split; [exact Hw'|exact Hk].
Defined.

Lemma X12_witness :
  reachable IsClose_of_spec connected_pool ∧
  ∃ w', Close connected_pool = Some ((), w') ∧
        pool w' = pool connected_pool ∧
        count is_Client_Close (trace w') = 1%nat.
Proof.
  split; [exact reachable_connected_pool|].
  destruct (X12_Close_only_closes_client IsClose_of_spec connected_pool
              reachable_connected_pool)
    as (w' & w'' & Hw' & Hp & _ & _ & _ & _ & Hc & _).
  exists w'. split; [exact Hw'|]. split; [exact Hp|].
  rewrite Hc. vm_compute. reflexivity.
Defined.

Lemma X13_witness :
  IsClose_of_spec RemoteClose = true ∧
  heap connected_pool !! 0%nat = Some (dialed_client fresh_pool) ∧
  ∃ w', exec (onStreamReset 0%nat StreamConnectionFailed;;
              onConnectionEvent IsClose_of_spec 0%nat RemoteClose)
             connected_pool = Some w' ∧
        Count UpstreamConnectionRemoteCloseWithActiveRequest (HostStats w') = 1 ∧
        activeClient (pool w') = None.
Proof.
  split; [reflexivity|]. split; [reflexivity|].
  destruct (X13_reset_then_close_counted IsClose_of_spec 0%nat
              StreamConnectionFailed RemoteClose connected_pool
              (dialed_client fresh_pool)
              (or_intror eq_refl) (or_intror eq_refl) eq_refl eq_refl)
    as (w' & Hw' & Hh & _ & Ha & _).
  exists w'. split; [exact Hw'|]. split; [|exact Ha].
  rewrite Hh. vm_compute. reflexivity.
Defined.

Lemma X14_witness :
  ∃ w, exec (steps IsClose_of_spec
               [call_NewStream Background 1%nat 2%nat; run_init;
                call_NewStream Background 3%nat 4%nat])
            refused_pool = Some w ∧
       activeClient (pool w) = None ∧
       count is_OnReady (trace w) = 0%nat.
Proof.
  eexists. split; [vm_compute; reflexivity|].
  match goal with |- activeClient (pool ?v) = _ ∧ _ =>
    destruct (X14_unreachable_host_never_active IsClose_of_spec 7%nat
                no_counts no_counts (mkResource 0 2) "connection refused"
                [call_NewStream Background 1%nat 2%nat; run_init;
                 call_NewStream Background 3%nat 4%nat] v)
      as (Ha & Hr & _)
  end.
  - vm_compute. reflexivity.
  - split; [exact Ha|exact Hr].
Defined.

(** * The pool under interleaving *)

(** ** The pieces make up the methods *)



(** ** What a piece leaves alone *)

Lemma keeps_objects_refl w : keeps_objects w w.
Proof. split; [done|]. intros a o Ho. by exists o. Qed.

Lemma keeps_objects_trans w1 w2 w3 :
  keeps_objects w1 w2 → keeps_objects w2 w3 → keeps_objects w1 w3.
Proof.
  intros [He1 H1] [He2 H2]. split; [congruence|].
  intros a o Ho. destruct (H1 a o Ho) as (o' & Ho' & Hc & Hh).
  destruct (H2 a o' Ho') as (o'' & Ho'' & Hc' & Hh').
  exists o''. auto.
Qed.

Lemma keeps_usable w w' a : keeps_objects w w' → usable w a → usable w' a.
Proof.
  intros [_ H] (o & Ho & Hc). destruct (H a o Ho) as (o' & Ho' & Hc' & _).
  exists o'. auto.
Qed.

Lemma keeps_insert (hp : list ActiveClient) a o o1 b o0 :
  hp !! a = Some o →
  (is_Some (client o) → is_Some (client o1)) →
  (is_Some (ac_host o) → is_Some (ac_host o1)) →
  hp !! b = Some o0 →
  ∃ o', <[a := o1]> hp !! b = Some o' ∧
        (is_Some (client o0) → is_Some (client o')) ∧
        (is_Some (ac_host o0) → is_Some (ac_host o')).
Proof.
  intros Ho Hc Hh Hb. destruct (decide (b = a)) as [->|Hne].
  - exists o1. rewrite list_lookup_insert_eq by (by eapply lookup_lt_Some).
    by simplify_eq.
  - exists o0. by rewrite list_lookup_insert_ne.
Qed.

Lemma keeps_alloc (hp : list ActiveClient) o1 b o0 :
  hp !! b = Some o0 →
  ∃ o', (hp ++ [o1]) !! b = Some o' ∧
        (is_Some (client o0) → is_Some (client o')) ∧
        (is_Some (ac_host o0) → is_Some (ac_host o')).
Proof. intros Hb. exists o0. by rewrite lookup_app_l by (by eapply lookup_lt_Some). Qed.

Ltac tame_done :=
  repeat split; simpl in *; rewrite ?length_insert; auto;
  try (intros ? ? ?; first [ by eexists | by eapply keeps_insert | by eapply keeps_alloc ]).

Section Tame.

Variable IsClose : ConnectionEvent → bool.

Lemma Active_tame : tame Active.
Proof.
  intros w r w' Hm. destruct_world w. subst.
  unfold_ops; simpl; intros H; split_cases. tame_done.
Qed.

Lemma NewStream_snapshot_tame : tame NewStream_snapshot.
Proof.
  intros w r w' Hm. destruct_world w. subst.
  unfold NewStream_snapshot. unfold_ops; simpl; intros H; split_cases. tame_done.
Qed.

Lemma NewStream_rest_tame ctx d l a : tame (NewStream_rest ctx d l a).
Proof.
  intros w r w' Hm. destruct_world w. subst.
  unfold NewStream_rest. unfold_ops; simpl; intros H; split_cases.
  all: tame_done.
Qed.

Lemma Close_test_tame : tame Close_test.
Proof.
  intros w r w' Hm. destruct_world w. subst.
  unfold Close_test. unfold_ops; simpl; intros H; split_cases. all: tame_done.
Qed.

Lemma Close_call_tame : tame Close_call.
Proof.
  intros w r w' Hm. destruct_world w. subst.
  unfold Close_call. unfold_ops; simpl; intros H; split_cases. all: tame_done.
Qed.

Lemma OnEvent_tame ac event : tame (OnEvent IsClose ac event).
Proof.
  intros w r w' Hm. destruct_world w. subst.
  unfold_ops; simpl; intros H; split_cases.
  all: tame_done.
Qed.

Lemma OnDestroyStream_tame ac : tame (OnDestroyStream ac).
Proof.
  intros w r w' Hm. destruct_world w. subst.
  unfold_ops; simpl; intros H; split_cases. all: tame_done.
Qed.

Lemma OnResetStream_tame ac reason : tame (OnResetStream ac reason).
Proof.
  intros w r w' Hm. destruct_world w. subst.
  unfold_ops; simpl; intros H; split_cases. all: tame_done.
Qed.

Lemma OnGoAway_tame ac : tame (OnGoAway ac).
Proof.
  intros w r w' Hm. destruct_world w. subst.
  unfold_ops; simpl; intros H; split_cases. all: tame_done.
Qed.

End Tame.

(** ** The invariant under interleaving *)

Ltac heap_done :=
  unfold usable, keeps_objects in *; simpl in *;
  rewrite ?list_lookup_insert_eq by (eapply lookup_lt_Some; eassumption);
  simplify_eq/=; eauto 10.

Lemma init_piece_spec pc w pc' w' :
  mux (pool w) = false →
  init_inv w pc →
  init_piece Background pc w = Some (pc', w') →
  mux (pool w') = false ∧ keeps_objects w w' ∧ init_inv w' pc' ∧
  ∀ a, activeClient (pool w') = Some a →
       activeClient (pool w) = Some a ∨ (usable w' a ∧ connect_err w = None).
Proof.
  intros Hm Hinv. destruct_world w. subst.
  destruct pc as [|ac cc data|ac cc data|ac cc data|ac cc|ac cc d|ac cc|ac cc|ac|[ac|]|];
    unfold init_inv, usable in Hinv; simpl in Hinv.
  all: unfold init_piece; unfold_ops; simpl; intros H.
  all: destruct_and?; repeat match goal with H : ∃ _, _ |- _ => destruct H end;
       destruct_and?.
  all: split_cases.
  all: split; [done|]; split; [|split].
  all: try (split; [done|]; simpl; intros ? ? ?;
            first [ by eexists | by eapply keeps_insert | by eapply keeps_alloc ]).
  all: try (intros ? ?; simplify_eq/=; by (left + (right; heap_done))).
  all: try by heap_done.
  Unshelve. all: assumption.
Qed.

Section Interleaved.

Variable IsClose : ConnectionEvent → bool.

Lemma cwf_spawn h hs cs rq cerr : cwf (spawn h hs cs rq cerr).
Proof.
  split; simpl; try done.
  intros ctx d l a Hin. by apply elem_of_nil in Hin.
Qed.

Lemma cwf_tame {A : Type} (m : M A) c r w' fr :
  tame m →
  cwf c →
  m (shared c) = Some (r, w') →
  (∀ ctx d l a, in_NewStream ctx d l (Some a) ∈ fr →
     in_NewStream ctx d l (Some a) ∈ frames c ∨
     activeClient (pool (shared c)) = Some a) →
  cwf (mkConc w' (init_at c) fr).
Proof.
  intros Ht [Hm Hf Hfr Hi] H Hin.
  destruct (Ht _ _ _ Hm H) as (Hm' & Hk & Hp & Hl & Ha).
  split; simpl.
  - done.
  - intros a Ha'. apply (keeps_usable (shared c)); [done|].
    apply Hf. destruct Ha as [Ha|Ha]; congruence.
  - intros ctx d l a Hin'. apply (keeps_usable (shared c)); [done|].
    destruct (Hin _ _ _ _ Hin') as [?|?]; eauto.
  - destruct Hk as [He Hk].
    destruct (init_at c) as [|ac cc data|ac cc data|ac cc data|ac cc|ac cc d|ac cc|ac cc|ac|[ac|]|];
      simpl in *; unfold usable in *; rewrite ?Hp, ?He.
    all: destruct_and?; repeat match goal with H : ∃ _, _ |- _ => destruct H end;
         destruct_and?.
    all: repeat split; try done.
    all: try (match goal with H : heap _ !! _ = Some _ |- _ =>
                destruct (Hk _ _ H) as (? & ? & ? & ?) end; by eauto 10).
    all: try (match goal with H : is_Some (heap _ !! _) |- _ =>
                destruct H as [? H];
                destruct (Hk _ _ H) as (? & ? & ? & ?) end; by eauto 10).
    + apply nil_length_inv. rewrite Hl. by apply length_zero_iff_nil.
    + destruct Ha as [Ha|Ha]; congruence.
Qed.

End Interleaved.

Section Schedules.

Variable IsClose : ConnectionEvent → bool.

Lemma elem_of_delete_frame (fr : list Frame) i f : f ∈ delete i fr → f ∈ fr.
Proof.
  revert i. induction fr as [|g fr IH]; intros [|i]; simpl.
  - done.
  - done.
  - intros ?. by right.
  - rewrite !elem_of_cons. intros [->|?]; [by left|right; eauto].
Qed.

Lemma move_cwf m c c' : cwf c → move IsClose m c = Some c' → cwf c'.
Proof.
  intros Hc. destruct m; simpl; unfold resume.
  - destruct (init_piece Background (init_at c) (shared c)) as [[pc' w']|] eqn:H;
      [|done].
    intros [= <-]. destruct Hc as [Hm Hf Hfr Hi].
    destruct (init_piece_spec _ _ _ _ Hm Hi H) as (Hm' & Hk & Hi' & Ha).
    split; simpl; [done| | |done].
    + intros a Ha'. destruct (Ha a Ha') as [?|[? _]]; [|done].
      apply (keeps_usable (shared c)); eauto.
    + intros ctx d l a Hin. apply (keeps_usable (shared c)); eauto.
  - destruct (Active (shared c)) as [[r w']|] eqn:H; [|done].
    intros [= <-]. eapply cwf_tame; eauto using Active_tame.
  - destruct (NewStream_snapshot (shared c)) as [[r w']|] eqn:H; [|done].
    intros [= <-]. eapply cwf_tame; eauto using NewStream_snapshot_tame.
    intros ctx' d' l' a. rewrite elem_of_app, list_elem_of_singleton.
    intros [?|[= -> -> -> ->]]; [by left|right].
    revert H. destruct Hc as [Hm _ _ _]. destruct c as [w pc fr].
    destruct_world w. subst. unfold NewStream_snapshot. unfold_ops. simpl.
    by intros [= -> _].
  - destruct (frames c !! i) as [[ctx d l a|]|] eqn:Hi; try done.
    destruct (NewStream_rest ctx d l a (shared c)) as [[r w']|] eqn:H; [|done].
    intros [= <-]. eapply cwf_tame; eauto using NewStream_rest_tame.
    intros ctx' d' l' a' Hin. left. by eapply elem_of_delete_frame.
  - destruct (Close_test (shared c)) as [[r w']|] eqn:H; [|done].
    intros [= <-]. eapply cwf_tame; eauto using Close_test_tame.
    intros ctx' d' l' a'. destruct r; [|by left].
    rewrite elem_of_app, list_elem_of_singleton. intros [?|[=]]. by left.
  - destruct (frames c !! i) as [[ctx d l a|]|] eqn:Hi; try done.
    destruct (Close_call (shared c)) as [[r w']|] eqn:H; [|done].
    intros [= <-]. eapply cwf_tame; eauto using Close_call_tame.
    intros ctx' d' l' a' Hin. left. by eapply elem_of_delete_frame.
  - destruct (OnEvent IsClose ac event (shared c)) as [[r w']|] eqn:H; [|done].
    intros [= <-]. eapply cwf_tame; eauto using OnEvent_tame.
  - destruct (OnDestroyStream ac (shared c)) as [[r w']|] eqn:H; [|done].
    intros [= <-]. eapply cwf_tame; eauto using OnDestroyStream_tame.
  - destruct (OnResetStream ac reason (shared c)) as [[r w']|] eqn:H; [|done].
    intros [= <-]. eapply cwf_tame; eauto using OnResetStream_tame.
  - destruct (OnGoAway ac (shared c)) as [[r w']|] eqn:H; [|done].
    intros [= <-]. eapply cwf_tame; eauto using OnGoAway_tame.
Qed.

Lemma moves_invariant (P : Conc → Prop) :
  (∀ m c c', cwf c → P c → move IsClose m c = Some c' → P c') →
  ∀ ms c c', cwf c → P c → moves IsClose ms c = Some c' → cwf c' ∧ P c'.
Proof.
  intros Hstep ms. induction ms as [|m ms IH]; intros c c' Hc HP; simpl.
  - by intros [= <-].
  - destruct (move IsClose m c) as [c1|] eqn:Hm; [|done].
    apply IH; eauto using move_cwf.
Qed.

Lemma moves_cwf ms c c' : cwf c → moves IsClose ms c = Some c' → cwf c'.
Proof.
  intros Hc H.
  by destruct (moves_invariant (λ _, True) (λ _ _ _ _ _ _, I) ms c c' Hc I H).
Qed.

Lemma interleaved_cwf c : interleaved IsClose c → cwf c.
Proof.
  intros (h & hs & cs & rq & cerr & ms & H).
  eapply moves_cwf; [apply cwf_spawn|exact H].
Qed.

Lemma moves_app ms1 ms2 c :
  moves IsClose (ms1 ++ ms2) c =
    match moves IsClose ms1 c with
    | Some c1 => moves IsClose ms2 c1
    | None => None
    end.
Proof.
  revert c. induction ms1 as [|m ms1 IH]; intros c; simpl; [done|].
  by destruct (move IsClose m c).
Qed.

Lemma interleaved_moves ms c c' :
  interleaved IsClose c → moves IsClose ms c = Some c' → interleaved IsClose c'.
Proof.
  intros (h & hs & cs & rq & cerr & ms0 & H0) H.
  exists h, hs, cs, rq, cerr, (ms0 ++ ms). by rewrite moves_app, H0.
Qed.

(** ** The dead state under interleaving *)


Lemma NewStream_snapshot_spec w :
  mux (pool w) = false →
  NewStream_snapshot w =
    Some (activeClient (pool w),
          set_accesses (accesses w ++ [Acquire; ReadField; Release]) w).
Proof.
  destruct_world w. intros ->. unfold NewStream_snapshot.
  repeat mstep. mdone.
Qed.


End Schedules.

(** ** Pieces that return *)

Lemma init_piece_returns pc w :
  mux (pool w) = false →
  init_inv w pc →
  pc ≠ init_returned →
  is_Some (init_piece Background pc w).
Proof.
  intros Hm Hinv Hpc. destruct_world w. subst.
  destruct pc as [|ac cc data|ac cc data|ac cc data|ac cc|ac cc d|ac cc|ac cc|ac|[ac|]|];
    unfold init_inv, usable in Hinv; simpl in Hinv; try done.
  all: destruct_and?; repeat match goal with H : ∃ _, _ |- _ => destruct H end;
       repeat match goal with H : is_Some _ |- _ => destruct H end;
       destruct_and?; subst.
  all: unfold init_piece; unfold_ops; simpl.
  all: repeat match goal with H : ?l !! ?a = Some _ |- context [?l !! ?a] =>
                rewrite H; simpl end.
  all: repeat match goal with H : ?x = Some _ |- context [?x] =>
                rewrite H; simpl end.
  all: repeat match goal with H : is_Some ?x |- context [?x] =>
                destruct H as [? ->]; simpl end.
  all: by eexists.
Qed.

Lemma NewStream_rest_returns ctx d l a w :
  (∀ a', a = Some a' → usable w a') →
  is_Some (NewStream_rest ctx d l a w).
Proof.
  intros Hu. destruct a as [a|]; [|by eexists].
  destruct (Hu a eq_refl) as (o & Ho & c & Hc).
  destruct_world w. unfold NewStream_rest. unfold_ops. simpl.
  match goal with |- context [CanCreate ?r] => destruct (CanCreate r) end;
    simpl; [|by eexists].
  rewrite Ho. simpl.
  rewrite list_lookup_insert_eq by (by eapply lookup_lt_Some). simpl.
  rewrite Hc. by eexists.
Qed.

Lemma Close_call_nil w :
  activeClient (pool w) = None → Close_call w = None.
Proof. destruct_world w. by intros ->. Qed.

Section WholeRuns.

Variable IsClose : ConnectionEvent → bool.

Lemma OnEvent_returns ac event w o :
  heap w !! ac = Some o →
  is_Some (client o) ∨ event ≠ ConnectTimeout →
  is_Some (OnEvent IsClose ac event w).
Proof.
  intros Ho Hc. rewrite (OnEvent_live IsClose ac event w o Ho).
  destruct_world w. unfold onConnectionEvent.
  destruct (IsClose event).
  - unfold_ops. simpl. rewrite Ho.
    destruct (closeWithActiveReq o); repeat case_decide; by eexists.
  - destruct (decide (event = ConnectTimeout)) as [->|Hne].
    + destruct Hc as [[c Hc]|?]; [|done].
      unfold_ops. simpl. rewrite Ho, Hc. by eexists.
    + destruct (decide (event = ConnectFailed)); by eexists.
Qed.

Lemma stream_events_return ac w o :
  heap w !! ac = Some o →
  is_Some (OnDestroyStream ac w) ∧
  (∀ reason, is_Some (OnResetStream ac reason w)) ∧
  is_Some (OnGoAway ac w).
Proof.
  intros Ho. destruct_world w. split; [|split].
  - unfold_ops. simpl. rewrite Ho. by eexists.
  - intros reason. unfold_ops. simpl. rewrite Ho.
    repeat case_decide; simpl; rewrite ?Ho; by eexists.
  - by eexists.
Qed.

(** ** Whole method runs are schedules *)








End WholeRuns.

(** ** The example pools are states of the pool under interleaving *)


Lemma interleaved_dialing_pool IsClose : interleaved IsClose dialing_pool.
Proof.
  exists 7%nat, no_counts, no_counts, (mkResource 0 2), None,
    (replicate 5 go_init).
  vm_compute. reflexivity.
Qed.

Lemma interleaved_closing_pool IsClose : interleaved IsClose closing_pool.
Proof.
  exists 7%nat, no_counts, no_counts, (mkResource 0 2), None,
    (replicate 10 go_init ++ [enter_Close]).
  vm_compute. reflexivity.
Qed.

(** ** The dead state *)




(** ** Which pieces can fault *)

(** X8. Under interleaving, in every state a schedule reaches: [Active]
    returns; the snapshot of a [NewStream] returns, and so does the rest
    of every [NewStream] under way, whatever has happened since its
    snapshot; the test of [Close] returns; the next piece of [init]
    returns; the stream events and [OnGoAway] return on every client
    object that exists, and so does a connection event, provided the
    object has its stream client or the event is not [ConnectTimeout].
    None of these dereferences a nil pointer or an unset stream client,
    and none is left waiting for the mutex, which every section that takes
    it releases.  The second read of [Close] is not among them. *)
Theorem X8_methods_return IsClose c :
  interleaved IsClose c →
  is_Some (Active (shared c)) ∧
  is_Some (NewStream_snapshot (shared c)) ∧
  (∀ ctx d l a, in_NewStream ctx d l a ∈ frames c →
                is_Some (NewStream_rest ctx d l a (shared c))) ∧
  is_Some (Close_test (shared c)) ∧
  (init_at c ≠ init_returned →
   is_Some (init_piece Background (init_at c) (shared c))) ∧
  ∀ ac o, heap (shared c) !! ac = Some o →
    (∀ event, is_Some (client o) ∨ event ≠ ConnectTimeout →
              is_Some (OnEvent IsClose ac event (shared c))) ∧
    is_Some (OnDestroyStream ac (shared c)) ∧
    (∀ reason, is_Some (OnResetStream ac reason (shared c))) ∧
    is_Some (OnGoAway ac (shared c)).
Proof.
  intros Hi. assert (Hc := interleaved_cwf IsClose c Hi).
  destruct Hc as [Hm Hf Hfr Hinit].
  split; [rewrite Active_spec by done; eauto|].
  split; [rewrite NewStream_snapshot_spec by done; eauto|].
  split.
  { intros ctx d l a Hin. apply NewStream_rest_returns.
    intros a' ->. eauto. }
  split; [by eexists|].
  split; [intros Hpc; by apply init_piece_returns|].
  intros ac o Ho. split.
  - intros event Hev. by apply (OnEvent_returns IsClose ac event (shared c) o).
  - by apply (stream_events_return ac (shared c) o).
Qed.

Lemma X8_witness :
  interleaved IsClose_of_spec dialing_pool ∧
  is_Some (init_piece Background (init_at dialing_pool) (shared dialing_pool)) ∧
  is_Some (OnEvent IsClose_of_spec 0%nat ConnectTimeout (shared dialing_pool)) ∧
  is_Some (Active (shared dialing_pool)).
Proof.
  assert (Hi := interleaved_dialing_pool IsClose_of_spec).
  destruct (X8_methods_return IsClose_of_spec dialing_pool Hi)
    as (Ha & _ & _ & _ & Hinit & Hev).
  split; [exact Hi|]. split; [by apply Hinit|]. split; [|exact Ha].
  destruct (Hev 0%nat _ eq_refl) as [He _].
  apply He. left. by eexists.
Defined.

(** X17. [Close] can dereference nil: it reads the field twice without
    the mutex (lines 106 and 107), and a handler that runs between the two
    reads stores nil.  Under interleaving, whenever a [Close] is under way
    that has found the field set, a terminal event delivered to a client
    object is handled, the [Close] is still under way afterwards, and its
    second read finds nil: the call [p.activeClient.client.Close()]
    faults. *)
Theorem X17_Close_faults_after_terminal_event IsClose c i cli o event :
  interleaved IsClose c →
  frames c !! i = Some in_Close →
  heap (shared c) !! cli = Some o →
  is_Some (client o) →
  terminal IsClose event = true →
  ∃ c1,
    move IsClose (deliver_OnEvent cli event) c = Some c1 ∧
    interleaved IsClose c1 ∧
    frames c1 !! i = Some in_Close ∧
    activeClient (pool (shared c1)) = None ∧
    Close_call (shared c1) = None ∧
    move IsClose (leave_Close i) c1 = None.
Proof.
  intros Hi Hfr Ho [cl Hcl] Hterm.
  destruct (onConnectionEvent_terminal IsClose cli event (shared c) o cl Ho Hcl Hterm)
    as (w1 & Hw1 & Ha1 & _).
  assert (Hmv : move IsClose (deliver_OnEvent cli event) c = Some (with_shared w1 c)).
  { cbn [move]. unfold resume.
    by rewrite (OnEvent_live IsClose cli event (shared c) o Ho), Hw1. }
  exists (with_shared w1 c). split; [done|]. split.
  { eapply (interleaved_moves IsClose [deliver_OnEvent cli event]); [exact Hi|].
    cbn [moves]. by rewrite Hmv. }
  split; [done|]. split; [done|]. split; [by apply Close_call_nil|].
  cbn [move with_shared frames]. rewrite Hfr. unfold resume. cbn [shared].
  by rewrite Close_call_nil.
Qed.

Lemma X17_witness :
  interleaved IsClose_of_spec closing_pool ∧
  frames closing_pool !! 0%nat = Some in_Close ∧
  terminal IsClose_of_spec RemoteClose = true ∧
  ∃ c1,
    move IsClose_of_spec (deliver_OnEvent 0%nat RemoteClose) closing_pool = Some c1 ∧
    move IsClose_of_spec (leave_Close 0%nat) c1 = None.
Proof.
  assert (Hi := interleaved_closing_pool IsClose_of_spec).
  assert (Ht : terminal IsClose_of_spec RemoteClose = true)
    by (vm_compute; reflexivity).
  split; [exact Hi|]. split; [reflexivity|]. split; [exact Ht|].
  destruct (X17_Close_faults_after_terminal_event IsClose_of_spec closing_pool
              0%nat 0%nat
              (mkActiveClient None (Some 1%nat)
                 (Some (mkConnData 0%nat 7%nat)) false 0%N)
              RemoteClose Hi eq_refl eq_refl (ex_intro _ 1%nat eq_refl) Ht)
    as (c1 & Hmv & _ & _ & _ & _ & Hf).
  exists c1. split; [exact Hmv|exact Hf].
Defined.

(** ** Whole method runs among the schedules *)



(** * Start-up helpers of package mosn *)

Lemma create_sinks_made ok cfgs :
  Mosn.sinks_made (Mosn.create_sinks ok cfgs) = Mosn.good_prefix ok cfgs.
Proof.
  induction cfgs as [|cfg rest IH]; simpl; [done|].
  destruct (ok cfg); simpl; [by rewrite IH|done].
Qed.

Lemma create_sinks_asked ok cfgs :
  Mosn.sinks_asked (Mosn.create_sinks ok cfgs) =
  Mosn.good_prefix ok cfgs ++
  take 1 (drop (length (Mosn.good_prefix ok cfgs)) cfgs).
Proof.
  induction cfgs as [|cfg rest IH]; simpl; [done|].
  destruct (ok cfg); simpl; [by rewrite IH|done].
Qed.

Lemma good_prefix_all ok cfgs :
  Mosn.good_prefix ok cfgs = cfgs ↔ Forall (λ cfg, ok cfg = true) cfgs.
Proof.
  induction cfgs as [|cfg rest IH]; simpl; [done|].
  destruct (ok cfg) eqn:Hok.
  - rewrite Forall_cons. split.
    + intros [= H]. split; [done|]. by apply IH.
    + intros [_ H]. f_equal. by apply IH.
  - split; [done|]. intros [? _]%Forall_cons. congruence.
Qed.

Lemma sinks_asked_app t1 t2 :
  Mosn.sinks_asked (t1 ++ t2) = Mosn.sinks_asked t1 ++ Mosn.sinks_asked t2.
Proof.
  induction t1 as [|c t1 IH]; simpl; [done|]. destruct c; simpl; by rewrite ?IH.
Qed.

Lemma sinks_made_app t1 t2 :
  Mosn.sinks_made (t1 ++ t2) = Mosn.sinks_made t1 ++ Mosn.sinks_made t2.
Proof.
  induction t1 as [|c t1 IH]; simpl; [done|]. destruct c; simpl; by rewrite ?IH.
Qed.

(** X15. [initializeMetrics] makes the sinks in the order of the
    configuration and gives up at the first one that fails: the sinks made
    are the longest leading run of sinks that can be made, the only other
    sink asked for is the one after that run, the failure is reported once,
    and all sinks are made exactly when none fails.  The stats matcher is
    set in every case. *)
Theorem X15_metrics_sinks_stop_at_first_failure sink_ok reconfiguring config :
  let t := Mosn.initializeMetrics sink_ok reconfiguring config in
  let good := Mosn.good_prefix sink_ok (Mosn.SinkConfigs config) in
  Mosn.sinks_made t = good ∧
  Mosn.sinks_asked t = good ++ take 1 (drop (length good) (Mosn.SinkConfigs config)) ∧
  good `prefix_of` Mosn.SinkConfigs config ∧
  Forall (λ cfg, sink_ok cfg = true) good ∧
  (Mosn.sinks_made t = Mosn.SinkConfigs config ↔
   Forall (λ cfg, sink_ok cfg = true) (Mosn.SinkConfigs config)) ∧
  (∀ cfg, Mosn.Errorf_sink_off cfg ∈ t →
          sink_ok cfg = false ∧
          Mosn.SinkConfigs config !! length good = Some cfg) ∧
  Mosn.SetStatsMatcher (Mosn.RejectAll (Mosn.Matcher config))
                       (Mosn.ExclusionLabels (Mosn.Matcher config))
                       (Mosn.ExclusionKeys (Mosn.Matcher config)) ∈ t.
Proof.
  intros t good. subst t good. unfold Mosn.initializeMetrics.
  set (pre := if _ && _ then _ else _).
  assert (Hpa : Mosn.sinks_asked pre = []) by (unfold pre; by case_match).
  assert (Hpm : Mosn.sinks_made pre = []) by (unfold pre; by case_match).
  rewrite sinks_made_app, sinks_asked_app, Hpa, Hpm. simpl.
  rewrite create_sinks_made, create_sinks_asked.
  split; [done|]. split; [done|].
  generalize (Mosn.SinkConfigs config). intros cfgs.
  split; [|split; [|split; [apply good_prefix_all|split]]].
  - induction cfgs as [|cfg rest IH]; simpl; [done|].
    destruct (sink_ok cfg); [by apply prefix_cons|apply prefix_nil].
  - induction cfgs as [|cfg rest IH]; simpl; [done|].
    destruct (sink_ok cfg) eqn:Hok; [by constructor|done].
  - intros cfg [Hin|Hin]%elem_of_app.
    { exfalso. unfold pre in Hin. case_match; [|by apply elem_of_nil in Hin].
      apply list_elem_of_singleton in Hin. done. }
    apply elem_of_cons in Hin as [?|Hin]; [done|].
    induction cfgs as [|c rest IH]; simpl in *; [by apply elem_of_nil in Hin|].
    apply elem_of_cons in Hin as [?|Hin]; [done|].
    destruct (sink_ok c) eqn:Hok; simpl.
    + apply elem_of_cons in Hin as [?|Hin]; [done|]. by apply IH.
    + apply list_elem_of_singleton in Hin. by simplify_eq.
  - apply elem_of_app. right. apply elem_of_cons. by left.
Qed.

(** X16. [initializeTracing] switches tracing on exactly when the
    configuration enables it, names a tracer, and the name stands for one:
    then that tracer and no other is set.  In every other case, an enabled
    configuration with an unknown tracer name included, tracing is disabled
    and no tracer is set.  The last call is always the one that switches
    tracing on or off, and a tracer is asked for exactly when the
    configuration enables tracing and names one. *)
Theorem X16_tracing_enabled_iff_tracer_known tracer_of config :
  let t := Mosn.initializeTracing tracer_of config in
  (Mosn.EnableTracing ∈ t ↔
   Mosn.Enable config = true ∧ Mosn.Tracer config ≠ EmptyString ∧
   is_Some (tracer_of (Mosn.Tracer config))) ∧
  (Mosn.DisableTracing ∈ t ↔ Mosn.EnableTracing ∉ t) ∧
  (∀ tracer, Mosn.SetTracer tracer ∈ t ↔
             Mosn.EnableTracing ∈ t ∧
             tracer_of (Mosn.Tracer config) = Some tracer) ∧
  (last t = Some Mosn.EnableTracing ∨ last t = Some Mosn.DisableTracing) ∧
  (Mosn.CreateTracer (Mosn.Tracer config) ∈ t ↔
   Mosn.Enable config = true ∧ Mosn.Tracer config ≠ EmptyString).
Proof.
  intros t. subst t. unfold Mosn.initializeTracing.
  destruct (Mosn.Enable config); simpl;
    [case_bool_decide as Hn; simpl;
     [destruct (tracer_of (Mosn.Tracer config)) as [tr|] eqn:Htr|]|].
  all: unfold not; split; [|split; [|split; [|split]]].
  all: try (intros tracer).
  all: try (by left); try (by right).
  all: split; intros H.
  all: repeat (rewrite ?elem_of_cons, ?elem_of_nil in H).
  all: repeat (rewrite ?elem_of_cons, ?elem_of_nil).
  all: try (intros H'; repeat (rewrite ?elem_of_cons, ?elem_of_nil in H')).
  all: try (destruct H as (? & ? & [? ?])); naive_solver.
Qed.
